(** * toy-rdbms: the storage and execution engine of [toy.py]

    A shallow embedding of the in-memory relational engine (hash indexes,
    tables with primary-key / unique constraints, the predicate and join
    resolver and the SELECT executor), followed by the properties proved
    about it.

    Modelling conventions.
    - A Python exception is a value of [PyExc]; a call that may raise returns
      a [pyresult].  A method that mutates [self] takes the table and returns
      the table it leaves behind together with its result, so the state left
      by a call that raises is visible.
    - [int] is [Z]; [str] is [string] (compared byte-wise); a finite [float]
      is the rational number it denotes ([Qc], so that [1 == 1.0] is an
      equality of numbers).  The non-finite floats (inf, nan) have no
      counterpart here.  The three operations of Python that round or parse
      ([int(s)], [float(s)] and float addition) are the fields of the class
      [PyBuiltins].
    - A row is a Python [dict] with [str] keys: an association list in
      insertion order.  The [dict] inside a [HashIndex] is keyed by values
      compared with Python's [==] (so [1], [1.0] and [True] are one key): a
      [gmap] over the canonical key of a value, [key_of].
    - Predicates ([where_fn]) are pure functions on a row that may raise. *)

From Stdlib Require Import ZArith QArith Qcanon Ascii String OrdersEx.
From stdpp Require Import base option list gmap strings countable numbers.

Local Open Scope string_scope.

(** ** Python values *)

(** [DataValue = Union[int, str, float, bool, None]] *)
Inductive DataValue :=
  | VInt (n : Z)
  | VStr (s : string)
  | VFloat (x : Qc)
  | VBool (b : bool)
  | VNull.

(** The classes a [Column.dtype] can be: [int], [str], [float], [bool]. *)
Inductive pytype := Tint | Tstr | Tfloat | Tbool.

#[global] Instance DataValue_eq_dec : EqDecision DataValue.
Proof. solve_decision. Defined.

#[global] Instance pytype_eq_dec : EqDecision pytype.
Proof. solve_decision. Defined.

(** [isinstance(v, cls)]: [bool] is a subclass of [int]. *)
Definition isinstance (v : DataValue) (cls : pytype) : bool :=
  match cls, v with
  | Tint, VInt _ | Tint, VBool _ => true
  | Tstr, VStr _ => true
  | Tfloat, VFloat _ => true
  | Tbool, VBool _ => true
  | _, _ => false
  end.

(** The number a numeric value denotes ([True] is 1, [False] is 0). *)
Definition num_of (v : DataValue) : option Qc :=
  match v with
  | VInt n => Some (Q2Qc (inject_Z n))
  | VBool b => Some (Q2Qc (inject_Z (if b then 1 else 0)))
  | VFloat x => Some x
  | VStr _ | VNull => None
  end.

(** [a == b]: numbers by value across [int], [bool] and [float]; strings by
    content; [None] only equals [None]. *)
Definition py_eq (a b : DataValue) : bool :=
  match num_of a, num_of b with
  | Some x, Some y => bool_decide (x = y)
  | None, None =>
      match a, b with
      | VStr s, VStr s' => bool_decide (s = s')
      | VNull, VNull => true
      | _, _ => false
      end
  | _, _ => false
  end.

(** ** Exceptions *)

Inductive Message :=
  | NotNullMissing (col : string)
  | TypeMismatchFor (col : string) (expected : pytype)
  | UniquePKViolation (col : string) (value : DataValue)
  | ColumnDoesNotExist (col : string)
  | PrimaryKeyAlreadyDefined
  | TableNotFound (name : string)
  | TableAlreadyExists (name : string)
  | NotSupportedBetween
  | UnsupportedOperand
  | WrongUnpackArity (expected got : nat)
  | CannotUnpack
  | InvalidLiteral (text : string)
  | ConditionNotSupported.

Inductive PyExc :=
  | ValueError (msg : Message)
  | TypeError (msg : Message)
  | KeyError (key : option string)
  | NotImplementedError (msg : Message).

Inductive pyresult (A : Type) :=
  | Ok (a : A)
  | Raise (e : PyExc).
Arguments Ok {A} a.
Arguments Raise {A} e.

#[global] Instance Message_eq_dec : EqDecision Message.
Proof. solve_decision. Defined.

#[global] Instance PyExc_eq_dec : EqDecision PyExc.
Proof. solve_decision. Defined.

#[global] Instance pyresult_eq_dec `{EqDecision A} : EqDecision (pyresult A).
Proof. solve_decision. Defined.

#[global] Instance pyresult_ret : MRet pyresult := λ A a, Ok a.

#[global] Instance pyresult_bind : MBind pyresult := λ A B f m,
  match m with
  | Ok a => f a
  | Raise e => Raise e
  end.

#[global] Instance pyresult_fmap : FMap pyresult := λ A B f m,
  match m with
  | Ok a => Ok (f a)
  | Raise e => Raise e
  end.

(** [a < b]; [TypeError] between a number and a string, and with [None]. *)
Definition py_lt (a b : DataValue) : pyresult bool :=
  match num_of a, num_of b with
  | Some x, Some y => Ok (bool_decide (x < y)%Qc)
  | None, None =>
      match a, b with
      | VStr s, VStr s' => Ok (String.ltb s s')
      | _, _ => Raise (TypeError NotSupportedBetween)
      end
  | _, _ => Raise (TypeError NotSupportedBetween)
  end.

(** [a > b] is [b < a] with the operands swapped. *)
Definition py_gt (a b : DataValue) : pyresult bool := py_lt b a.

(** [max(a, b)]: the builtin keeps [a] unless [b > a]. *)
Definition py_max (a b : DataValue) : pyresult DataValue :=
  is_gt ← py_gt b a; Ok (if is_gt : bool then b else a).

(** What Python leaves to the platform: parsing and float rounding. *)
Class PyBuiltins := {
  (** [int(s)]; [None] is [ValueError] *)
  int_of_str : string → option Z;
  (** [float(s)]; [None] is [ValueError] *)
  float_of_str : string → option Qc;
  (** [x + y] on floats, rounded *)
  float_add : Qc → Qc → Qc;
}.

(** [v + 1] (the [+= 1] of the autoincrement counter). *)
Definition py_add_one `{PyBuiltins} (v : DataValue) : pyresult DataValue :=
  match v with
  | VInt n => Ok (VInt (n + 1))
  | VBool b => Ok (VInt ((if b then 1 else 0) + 1))
  | VFloat x => Ok (VFloat (float_add x (Q2Qc (inject_Z 1))))
  | VStr _ | VNull => Raise (TypeError UnsupportedOperand)
  end.

(** ** Dict keys *)

(** The key of a value in a [dict]: [hash] and [==] identify the numbers of
    equal value. *)
Inductive Key :=
  | KNum (x : Qc)
  | KStr (s : string)
  | KNone.

#[global] Instance Key_eq_dec : EqDecision Key.
Proof. solve_decision. Defined.

#[global] Instance Key_countable : Countable Key.
Proof.
  refine (inj_countable'
    (λ k, match k with
          | KNum x => inl x
          | KStr s => inr (inl s)
          | KNone => inr (inr ())
          end)
    (λ s, match s with
          | inl x => KNum x
          | inr (inl s) => KStr s
          | inr (inr _) => KNone
          end) _).
  by intros [].
Defined.

Definition key_of (v : DataValue) : Key :=
  match num_of v with
  | Some x => KNum x
  | None => match v with VStr s => KStr s | _ => KNone end
  end.

(** ** Rows: dicts from column names to values *)

Definition Row := list (string * DataValue).

(** [r[k]], [None] when the key is absent ([KeyError]) *)
Fixpoint dict_lookup (r : Row) (k : string) : option DataValue :=
  match r with
  | [] => None
  | (k', v) :: r' => if bool_decide (k' = k) then Some v else dict_lookup r' k
  end.

(** [r.get(k)] *)
Definition dict_get (r : Row) (k : string) : DataValue :=
  default VNull (dict_lookup r k).

(** [k in r] *)
Definition dict_mem (r : Row) (k : string) : bool :=
  bool_decide (is_Some (dict_lookup r k)).

(** [r[k] = v]: an existing key keeps its place, a new one goes last. *)
Fixpoint dict_set (r : Row) (k : string) (v : DataValue) : Row :=
  match r with
  | [] => [(k, v)]
  | (k', v') :: r' =>
      if bool_decide (k' = k) then (k, v) :: r' else (k', v') :: dict_set r' k v
  end.

(** [r.update(other)] *)
Definition dict_update (r other : Row) : Row :=
  foldl (λ acc kv, dict_set acc kv.1 kv.2) r other.

(** ** HashIndex *)

(** [self.data: dict[DataValue, set[int]]] *)
Record HashIndex := { data : gmap Key (gset nat) }.

Module HashIndex.

(** [HashIndex()] *)
Definition empty : HashIndex := {| data := ∅ |}.

(** [self.data[value].add(rowid)] on a [defaultdict(set)] *)
Definition add (self : HashIndex) (value : DataValue) (rowid : nat) : HashIndex :=
  {| data := <[key_of value := {[rowid]} ∪ default ∅ (data self !! key_of value)]> (data self) |}.

Definition remove (self : HashIndex) (value : DataValue) (rowid : nat) : HashIndex :=
  match data self !! key_of value with
  | Some s =>
      if bool_decide (s ≠ ∅) then
        let s' := s ∖ {[rowid]} in
        if bool_decide (s' = ∅)
        then {| data := base.delete (key_of value) (data self) |}
        else {| data := <[key_of value := s']> (data self) |}
      else self
  | None => self
  end.

Definition lookup (self : HashIndex) (value : DataValue) : gset nat :=
  default ∅ (data self !! key_of value).

(** [self.data.clear()] *)
Definition clear (self : HashIndex) : HashIndex := {| data := ∅ |}.

End HashIndex.

(** ** Column and Table *)

Record Column := {
  name : string;
  dtype : pytype;
  nullable : bool;
}.

Record Table := {
  table_name : string;
  columns : gmap string Column;
  column_order : list string;
  rows : list Row;
  pk_column : option string;
  unique_columns : gset string;
  indexes : gmap string HashIndex;
  _autoincrement_pk : bool;
  _pk_counter : DataValue;
}.

(** Assignments to one attribute of [self]. *)
Definition set_rows (self : Table) (rs : list Row) : Table :=
  {| table_name := table_name self; columns := columns self;
     column_order := column_order self; rows := rs;
     pk_column := pk_column self; unique_columns := unique_columns self;
     indexes := indexes self; _autoincrement_pk := _autoincrement_pk self;
     _pk_counter := _pk_counter self |}.

Definition set_indexes (self : Table) (ixs : gmap string HashIndex) : Table :=
  {| table_name := table_name self; columns := columns self;
     column_order := column_order self; rows := rows self;
     pk_column := pk_column self; unique_columns := unique_columns self;
     indexes := ixs; _autoincrement_pk := _autoincrement_pk self;
     _pk_counter := _pk_counter self |}.

Definition set_pk_counter (self : Table) (c : DataValue) : Table :=
  {| table_name := table_name self; columns := columns self;
     column_order := column_order self; rows := rows self;
     pk_column := pk_column self; unique_columns := unique_columns self;
     indexes := indexes self; _autoincrement_pk := _autoincrement_pk self;
     _pk_counter := c |}.

Definition set_unique_columns (self : Table) (u : gset string) : Table :=
  {| table_name := table_name self; columns := columns self;
     column_order := column_order self; rows := rows self;
     pk_column := pk_column self; unique_columns := u;
     indexes := indexes self; _autoincrement_pk := _autoincrement_pk self;
     _pk_counter := _pk_counter self |}.

Definition set_pk_column (self : Table) (pk : option string) : Table :=
  {| table_name := table_name self; columns := columns self;
     column_order := column_order self; rows := rows self;
     pk_column := pk; unique_columns := unique_columns self;
     indexes := indexes self; _autoincrement_pk := _autoincrement_pk self;
     _pk_counter := _pk_counter self |}.

Definition set_autoincrement_pk (self : Table) (b : bool) : Table :=
  {| table_name := table_name self; columns := columns self;
     column_order := column_order self; rows := rows self;
     pk_column := pk_column self; unique_columns := unique_columns self;
     indexes := indexes self; _autoincrement_pk := b;
     _pk_counter := _pk_counter self |}.

(** A predicate passed as [where_fn]; [None] is Python's [None]. *)
Definition Predicate := Row → pyresult bool.

(** [where_fn is None or where_fn(row)] *)
Definition where_matches (where_fn : option Predicate) (row : Row) : pyresult bool :=
  match where_fn with
  | None => Ok true
  | Some f => f row
  end.

(** [lst[:n]] *)
Definition py_slice_to {A} (l : list A) (n : Z) : list A :=
  if bool_decide (0 ≤ n)%Z then take (Z.to_nat n) l
  else take (length l - Z.to_nat (- n)) l.

(** [list.sort(key=..., reverse=...)].  The sort is stable and compares keys
    with [<] only; with [reverse] it sorts the reversed list and reverses the
    result, which keeps equal keys in their original order.  Modelled by a
    stable insertion sort: on keys that [<] orders (all numbers, or all
    strings) every stable sort returns the same list, and on any other list of
    two or more keys the comparison raises [TypeError]. *)
Fixpoint sort_insert (key : Row → DataValue) (x : Row) (sorted : list Row)
  : pyresult (list Row) :=
  match sorted with
  | [] => Ok [x]
  | y :: rest =>
      is_lt ← py_lt (key y) (key x);
      if is_lt : bool then (r ← sort_insert key x rest; Ok (y :: r))
      else Ok (x :: sorted)
  end.

Fixpoint sort_stable (key : Row → DataValue) (l : list Row) : pyresult (list Row) :=
  match l with
  | [] => Ok []
  | x :: l' => s ← sort_stable key l'; sort_insert key x s
  end.

Definition list_sort (key : Row → DataValue) (reverse : bool) (l : list Row)
  : pyresult (list Row) :=
  if reverse then list.reverse <$> sort_stable key (list.reverse l)
  else sort_stable key l.

Module Table.

(** [Table(name, columns)] *)
Definition __init__ (name_ : string) (cols : list Column) : Table :=
  {| table_name := name_;
     columns := foldl (λ m c, <[name c := c]> m) ∅ cols;
     column_order := name <$> cols;
     rows := [];
     pk_column := None;
     unique_columns := ∅;
     indexes := ∅;
     _autoincrement_pk := false;
     _pk_counter := VInt 0 |}.

Definition _ensure_index (self : Table) (colname : string) : Table :=
  match indexes self !! colname with
  | None => set_indexes self (<[colname := HashIndex.empty]> (indexes self))
  | Some _ => self
  end.

(** [if self.pk_column:] is false for [None] and for the empty string. *)
Definition pk_column_truthy (self : Table) : bool :=
  match pk_column self with
  | Some s => negb (bool_decide (s = ""))
  | None => false
  end.

Definition define_primary_key (self : Table) (colname : string)
    (autoincrement : bool) : Table * pyresult unit :=
  match columns self !! colname with
  | None => (self, Raise (ValueError (ColumnDoesNotExist colname)))
  | Some c =>
      if pk_column_truthy self
      then (self, Raise (ValueError PrimaryKeyAlreadyDefined))
      else
        let self := set_pk_column self (Some colname) in
        let self := set_unique_columns self ({[colname]} ∪ unique_columns self) in
        let self := _ensure_index self colname in
        if autoincrement && bool_decide (dtype c = Tint)
        then (set_autoincrement_pk self true, Ok ())
        else (self, Ok ())
  end.

Definition add_unique (self : Table) (colname : string) : Table * pyresult unit :=
  match columns self !! colname with
  | None => (self, Raise (ValueError (ColumnDoesNotExist colname)))
  | Some _ =>
      let self := set_unique_columns self ({[colname]} ∪ unique_columns self) in
      (_ensure_index self colname, Ok ())
  end.

Definition _check_unique_violation (self : Table) (col : string)
    (value : DataValue) (exclude_rowid : option nat) : pyresult unit :=
  if bool_decide (col ∈ unique_columns self) then
    match indexes self !! col with
    | None => Raise (KeyError (Some col))
    | Some idx =>
        let matches := HashIndex.lookup idx value in
        let matches :=
          match exclude_rowid with
          | Some rowid => matches ∖ {[rowid]}
          | None => matches
          end in
        if bool_decide (matches ≠ ∅)
        then Raise (ValueError (UniquePKViolation col value))
        else Ok ()
    end
  else Ok ().

(** [for col, idx in self.indexes.items(): idx.add(row.get(col), rowid)] *)
Definition index_row (row : Row) (rowid : nat) (ixs : gmap string HashIndex)
  : gmap string HashIndex :=
  map_imap (λ col idx, Some (HashIndex.add idx (dict_get row col) rowid)) ixs.

(** The loop of [_rebuild_indexes] over [enumerate(self.rows)], from [rowid]. *)
Fixpoint index_rows (rowid : nat) (rs : list Row) (ixs : gmap string HashIndex)
  : gmap string HashIndex :=
  match rs with
  | [] => ixs
  | row :: rs' => index_rows (S rowid) rs' (index_row row rowid ixs)
  end.

Definition _rebuild_indexes (self : Table) : Table :=
  set_indexes self (index_rows 0 (rows self) (HashIndex.clear <$> indexes self)).

(** [{c: values_dict.get(c) for c in self.column_order}] *)
Definition new_row (self : Table) (values_dict : Row) : Row :=
  foldl (λ row c, dict_set row c (dict_get values_dict c)) [] (column_order self).

(** The autoincrement block of [insert].  It returns the row and whether
    the row received the key [None] (only when autoincrement is on without
    a primary key, which [define_primary_key] never produces). *)
Definition insert_autoincrement `{PyBuiltins} (self : Table)
    (values_dict row : Row) : Table * pyresult (Row * bool) :=
  if _autoincrement_pk self then
    let supplied :=
      match pk_column self with
      | Some pk => dict_get values_dict pk
      | None => VNull
      end in
    match supplied with
    | VNull =>
        match py_add_one (_pk_counter self) with
        | Raise e => (self, Raise e)
        | Ok c =>
            (set_pk_counter self c,
             Ok (match pk_column self with
                 | Some pk => (dict_set row pk c, false)
                 | None => (row, true)
                 end))
        end
    | _ =>
        match py_max (_pk_counter self) supplied with
        | Raise e => (self, Raise e)
        | Ok c => (set_pk_counter self c, Ok (row, false))
        end
    end
  else (self, Ok (row, false)).

(** The NOT NULL and type checks, [for k, v in row.items()]. *)
Fixpoint insert_validate (self : Table) (items : Row) : pyresult unit :=
  match items with
  | [] => Ok ()
  | (k, v) :: rest =>
      match columns self !! k with
      | None => Raise (KeyError (Some k))
      | Some col =>
          match v with
          | VNull =>
              if nullable col then insert_validate self rest
              else Raise (ValueError (NotNullMissing k))
          | _ =>
              if bool_decide (dtype col = Tint) && isinstance v Tbool
              then Raise (TypeError (TypeMismatchFor k Tint))
              else if negb (isinstance v (dtype col))
              then Raise (TypeError (TypeMismatchFor k (dtype col)))
              else insert_validate self rest
          end
      end
  end.

(** [for col in self.unique_columns: self._check_unique_violation(col, row.get(col))];
    the set is visited in the order of [elements]. *)
Fixpoint insert_check_unique (self : Table) (row : Row) (cols : list string)
  : pyresult unit :=
  match cols with
  | [] => Ok ()
  | col :: cols' =>
      _check_unique_violation self col (dict_get row col) None;;
      insert_check_unique self row cols'
  end.

Definition insert `{PyBuiltins} (self : Table) (values_dict : Row)
  : Table * pyresult nat :=
  let row := new_row self values_dict in
  let '(self, r) := insert_autoincrement self values_dict row in
  match r with
  | Raise e => (self, Raise e)
  | Ok (row, none_key) =>
      let checks :=
        insert_validate self row;;
        (if none_key : bool then Raise (KeyError None) else Ok ());;
        insert_check_unique self row (elements (unique_columns self)) in
      match checks with
      | Raise e => (self, Raise e)
      | Ok _ =>
          let rowid := length (rows self) in
          (set_indexes (set_rows self (rows self ++ [row]))
             (index_row row rowid (indexes self)),
           Ok rowid)
      end
  end.

(** First loop of [update] on one row: the uniqueness checks. *)
Fixpoint update_validate (self : Table) (row : Row) (rowid : nat)
    (assignments : Row) : pyresult unit :=
  match assignments with
  | [] => Ok ()
  | (col, new_val) :: rest =>
      (if bool_decide (col ∈ unique_columns self)
          && negb (py_eq new_val (dict_get row col))
       then _check_unique_violation self col new_val (Some rowid)
       else Ok ());;
      update_validate self row rowid rest
  end.

(** Second loop of [update] on one row: it mutates the row and the indexes
    and stops at the first [KeyError] of [row[col]]. *)
Fixpoint update_assign (rowid : nat) (assignments : Row) (row : Row)
    (ixs : gmap string HashIndex)
  : Row * gmap string HashIndex * pyresult unit :=
  match assignments with
  | [] => (row, ixs, Ok ())
  | (col, new_val) :: rest =>
      match dict_lookup row col with
      | None => (row, ixs, Raise (KeyError (Some col)))
      | Some old =>
          let row := dict_set row col new_val in
          let ixs :=
            match ixs !! col with
            | Some idx =>
                <[col := HashIndex.add (HashIndex.remove idx old rowid) new_val rowid]> ixs
            | None => ixs
            end in
          update_assign rowid rest row ixs
      end
  end.

(** [for rowid, row in enumerate(self.rows)], with [n] rows left to visit. *)
Fixpoint update_loop (self : Table) (assignments : Row)
    (where_fn : option Predicate) (n rowid count : nat) : Table * pyresult nat :=
  match n with
  | 0 => (self, Ok count)
  | S n' =>
      match rows self !! rowid with
      | None => (self, Ok count)
      | Some row =>
          match where_matches where_fn row with
          | Raise e => (self, Raise e)
          | Ok false => update_loop self assignments where_fn n' (S rowid) count
          | Ok true =>
              match update_validate self row rowid assignments with
              | Raise e => (self, Raise e)
              | Ok _ =>
                  let '(row', ixs, r) :=
                    update_assign rowid assignments row (indexes self) in
                  let self :=
                    set_indexes (set_rows self (<[rowid := row']> (rows self))) ixs in
                  match r with
                  | Raise e => (self, Raise e)
                  | Ok _ =>
                      update_loop self assignments where_fn n' (S rowid) (S count)
                  end
              end
          end
      end
  end.

Definition update (self : Table) (assignments : Row)
    (where_fn : option Predicate) : Table * pyresult nat :=
  update_loop self assignments where_fn (length (rows self)) 0 0.

(** The scan of [delete]: the rows kept and the number of rows dropped. *)
Fixpoint delete_scan (where_fn : Predicate) (rs : list Row)
  : pyresult (list Row * nat) :=
  match rs with
  | [] => Ok ([], 0)
  | row :: rs' =>
      b ← where_fn row;
      '(new_rows, count) ← delete_scan where_fn rs';
      Ok (if b : bool then (new_rows, S count) else (row :: new_rows, count))
  end.

Definition delete (self : Table) (where_fn : option Predicate)
  : Table * pyresult nat :=
  match where_fn with
  | None =>
      let count := length (rows self) in
      let self := set_rows self [] in
      let self := set_indexes self (HashIndex.clear <$> indexes self) in
      (set_pk_counter self (VInt 0), Ok count)
  | Some f =>
      match delete_scan f (rows self) with
      | Raise e => (self, Raise e)
      | Ok (new_rows, count) => (_rebuild_indexes (set_rows self new_rows), Ok count)
      end
  end.

(** [[r for r in rows if where_fn(r)]] *)
Fixpoint select_filter (where_fn : Predicate) (rs : list Row) : pyresult (list Row) :=
  match rs with
  | [] => Ok []
  | r :: rs' =>
      b ← where_fn r;
      kept ← select_filter where_fn rs';
      Ok (if b : bool then r :: kept else kept)
  end.

(** [{c: r.get(c) for c in proj if c in r}] *)
Definition project_row (proj : list string) (r : Row) : Row :=
  foldl (λ out c, if dict_mem r c then dict_set out c (dict_get r c) else out) [] proj.

Definition select (self : Table) (proj : option (list string))
    (where_fn : option Predicate) (order_by : option (string * bool))
    (limit : option Z) : pyresult (list Row) :=
  rs ← match where_fn with
       | Some f => select_filter f (rows self)
       | None => Ok (rows self)
       end;
  let result :=
    match proj with
    | None => rs
    | Some p => if bool_decide (p = ["*"]) then rs else project_row p <$> rs
    end in
  result ← match order_by with
           | Some (col, desc) => list_sort (λ r, dict_get r col) desc result
           | None => Ok result
           end;
  Ok (match limit with
      | Some n => py_slice_to result n
      | None => result
      end).

End Table.

(** ** SQL parsing helpers *)

(** The nodes of a parsed statement (sqlglot's [exp] module), as far as the
    engine inspects them.  [Other] stands for every node class the engine
    does not test for ([exp.Or], [exp.Not], [exp.Neg], [exp.Boolean], ...)
    and carries what its [.name] returns. *)
Module exp.

Inductive Expression :=
  | Column (table name : string)
  | Literal (this : string) (is_string : bool)
  | Star
  | Null
  | EQ (left right : Expression)
  | GT (left right : Expression)
  | LT (left right : Expression)
  | And (left right : Expression)
  | Other (name : string).

(** [expr.name]: the text of the node's [this] argument.  The [this] of a
    column is its identifier; the [this] of a binary node is its left operand,
    whose text is empty unless it is a literal, a star or a null. *)
Definition name (e : Expression) : string :=
  match e with
  | Column _ n => n
  | Literal this _ => this
  | Star => "*"
  | Null => "NULL"
  | EQ l _ | GT l _ | LT l _ | And l _ =>
      match l with
      | Literal this _ => this
      | Star => "*"
      | Null => "NULL"
      | _ => ""
      end
  | Other n => n
  end.

(** [expr.is_number] and [expr.is_int] of a literal with text [this]. *)
Definition is_number (is_string : bool) : bool := negb is_string.

Definition is_int `{PyBuiltins} (this : string) (is_string : bool) : bool :=
  is_number is_string && bool_decide (is_Some (int_of_str this)).

End exp.

(** [parse_literal(expr)]; the Python [None] it returns for a node that is
    not a literal is [VNull]. *)
Definition parse_literal `{PyBuiltins} (expr : exp.Expression) : pyresult DataValue :=
  match expr with
  | exp.Literal this is_string =>
      if exp.is_int this is_string then
        match int_of_str this with
        | Some n => Ok (VInt n)
        | None => Raise (ValueError (InvalidLiteral this))
        end
      else if exp.is_number is_string then
        match float_of_str this with
        | Some x => Ok (VFloat x)
        | None => Raise (ValueError (InvalidLiteral this))
        end
      else Ok (VStr this)
  | _ => Ok VNull
  end.

(** What [build_predicate] returns: a lambda, the tuple
    [("JOIN", t1, c1, t2, c2)], or the pair [(joins[0], filters)]. *)
Inductive Pred :=
  | Lambda (f : Predicate)
  | JoinTuple (t1 c1 t2 c2 : string)
  | PairTuple (first : Pred) (filters : list Predicate).

(** [isinstance(p, tuple)] and [callable(p)] *)
Definition is_tuple (p : Pred) : bool :=
  match p with
  | Lambda _ => false
  | _ => true
  end.

Definition callables (ps : list Pred) : list Predicate :=
  omap (λ p, match p with Lambda f => Some f | _ => None end) ps.

(** [all(p(r) for p in filters)] *)
Fixpoint py_all (filters : list Predicate) (r : Row) : pyresult bool :=
  match filters with
  | [] => Ok true
  | p :: ps => b ← p r; if b : bool then py_all ps r else Ok false
  end.

(** The join test of the [exp.EQ] case. *)
Definition is_join_condition (left right : exp.Expression)
    (table_map : option (gmap string Table)) : option Pred :=
  match left, right, table_map with
  | exp.Column lt ln, exp.Column rt rn, Some m =>
      if bool_decide (m ≠ ∅) && negb (bool_decide (lt = rt))
         && bool_decide (is_Some (m !! lt)) && bool_decide (is_Some (m !! rt))
      then Some (JoinTuple lt ln rt rn)
      else None
  | _, _, _ => None
  end.

(** A comparison whose right side is not a literal falls through every case
    to the final [raise NotImplementedError]. *)
Definition comparison `{PyBuiltins} (right : exp.Expression)
    (f : DataValue → Predicate) : pyresult Pred :=
  val ← parse_literal right;
  match val with
  | VNull => Raise (NotImplementedError ConditionNotSupported)
  | _ => Ok (Lambda (f val))
  end.

Fixpoint build_predicate `{PyBuiltins} (expr : exp.Expression)
    (table_map : option (gmap string Table)) : pyresult Pred :=
  match expr with
  | exp.EQ lhs rhs =>
      match is_join_condition lhs rhs table_map with
      | Some j => Ok j
      | None =>
          comparison rhs (λ val r, Ok (py_eq (dict_get r (exp.name lhs)) val))
      end
  | exp.GT lhs rhs =>
      comparison rhs (λ val r, py_gt (dict_get r (exp.name lhs)) val)
  | exp.LT lhs rhs =>
      comparison rhs (λ val r, py_lt (dict_get r (exp.name lhs)) val)
  | exp.And lhs rhs =>
      p1 ← build_predicate lhs table_map;
      p2 ← build_predicate rhs table_map;
      let joins := filter (λ p, is_tuple p = true) [p1; p2] in
      let filters := callables [p1; p2] in
      match joins with
      | j :: _ => Ok (PairTuple j filters)
      | [] => Ok (Lambda (py_all filters))
      end
  | _ => Raise (NotImplementedError ConditionNotSupported)
  end.

(** ** The catalog and the SELECT executor *)

Record MiniDB := { tables : gmap string Table }.

Module MiniDB.

Definition get_table (self : MiniDB) (name_ : string) : pyresult Table :=
  match tables self !! name_ with
  | Some t => Ok t
  | None => Raise (ValueError (TableNotFound name_))
  end.

End MiniDB.

(** A parsed SELECT, as [execute] reads it: the names of the tables it
    mentions, the condition under WHERE, the select list, the first ORDER BY
    item (its expression and whether it is descending) and the text of the
    LIMIT literal. *)
Record Select := {
  sel_tables : list string;
  sel_where : option exp.Expression;
  sel_expressions : list exp.Expression;
  sel_order : option (exp.Expression * bool);
  sel_limit : option string;
}.

(** What [execute] returns: a list of rows or a message. *)
Inductive Output :=
  | RowList (rs : list Row)
  | Text (s : string).

(** The value bound to [join_info]: the 4-tuple [pred[1:]] of a direct join,
    or the first component of a pair, a tuple in its own right. *)
Inductive JoinInfo :=
  | Join4 (t1 c1 t2 c2 : string)
  | JoinFirst (p : Pred).

(** [{t: db.get_table(t) for t in tables}] *)
Fixpoint make_table_map (db : MiniDB) (names : list string) (m : gmap string Table)
  : pyresult (gmap string Table) :=
  match names with
  | [] => Ok m
  | t :: rest => tbl ← MiniDB.get_table db t; make_table_map db rest (<[t := tbl]> m)
  end.

(** The branch on the shape of [pred]: [(join_info, filter_fn)]. *)
Definition split_pred (pred : Pred) : option JoinInfo * option Predicate :=
  match pred with
  | PairTuple first filters => (Some (JoinFirst first), head filters)
  | JoinTuple t1 c1 t2 c2 => (Some (Join4 t1 c1 t2 c2), None)
  | Lambda f => (None, Some f)
  end.

(** [t1, c1, t2, c2 = join_info] *)
Definition unpack4 (j : JoinInfo) : pyresult (string * string * string * string) :=
  match j with
  | Join4 t1 c1 t2 c2 => Ok (t1, c1, t2, c2)
  | JoinFirst (JoinTuple _ _ _ _) => Raise (ValueError (WrongUnpackArity 4 5))
  | JoinFirst (PairTuple _ _) => Raise (ValueError (WrongUnpackArity 4 2))
  | JoinFirst (Lambda _) => Raise (TypeError CannotUnpack)
  end.

(** [{f"{t}.{k}": v for k, v in r.items()}] *)
Definition qualify (t : string) (r : Row) : Row :=
  foldl (λ out kv, dict_set out (t ++ "." ++ kv.1) kv.2) [] r.

(** The row a matching pair emits. *)
Definition combined (t1 t2 : string) (r1 r2 : Row) : Row :=
  dict_update (qualify t1 r1) (qualify t2 r2).

(** The inner loop of the join, over the rows of the right table. *)
Fixpoint join_inner (t1 c1 t2 c2 : string) (r1 : Row) (rows2 : list Row) : list Row :=
  match rows2 with
  | [] => []
  | r2 :: rest =>
      if py_eq (dict_get r2 c2) (dict_get r1 c1)
      then combined t1 t2 r1 r2 :: join_inner t1 c1 t2 c2 r1 rest
      else join_inner t1 c1 t2 c2 r1 rest
  end.

(** The outer loop, over the rows of the left table. *)
Fixpoint join_outer (filter_fn : option Predicate) (t1 c1 t2 c2 : string)
    (rows1 rows2 : list Row) : pyresult (list Row) :=
  match rows1 with
  | [] => Ok []
  | r1 :: rest =>
      keep ← where_matches filter_fn r1;
      let emitted := if keep : bool then join_inner t1 c1 t2 c2 r1 rows2 else [] in
      tail ← join_outer filter_fn t1 c1 t2 c2 rest rows2;
      Ok (emitted ++ tail)%list
  end.

(** The [isinstance(ast, exp.Select)] branch of [execute]. *)
Definition execute_select `{PyBuiltins} (ast : Select) (db : MiniDB)
  : pyresult Output :=
  table_map ← make_table_map db (sel_tables ast) ∅;
  '(join_info, filter_fn) ←
    match sel_where ast with
    | Some w => pred ← build_predicate w (Some table_map); Ok (split_pred pred)
    | None => Ok (None, None)
    end;
  let proj :=
    if existsb (λ e, match e with exp.Star => true | _ => false end)
         (sel_expressions ast)
    then ["*"]
    else omap (λ e, match e with exp.Column _ n => Some n | _ => None end)
           (sel_expressions ast) in
  match sel_tables ast, join_info with
  | [t], _ =>
      match table_map !! t with
      | None => Raise (KeyError (Some t))
      | Some table =>
          let order_by := (λ o : exp.Expression * bool, (exp.name o.1, o.2)) <$> sel_order ast in
          limit ← match sel_limit ast with
                  | Some text =>
                      match int_of_str text with
                      | Some n => Ok (Some n)
                      | None => Raise (ValueError (InvalidLiteral text))
                      end
                  | None => Ok None
                  end;
          rs ← Table.select table (if bool_decide (proj = ["*"]) then None else Some proj)
                 filter_fn order_by limit;
          Ok (RowList rs)
      end
  | [_; _], Some j =>
      '(t1, c1, t2, c2) ← unpack4 j;
      match table_map !! t1, table_map !! t2 with
      | Some tbl1, Some tbl2 =>
          rs ← join_outer filter_fn t1 c1 t2 c2 (rows tbl1) (rows tbl2);
          Ok (RowList rs)
      | None, _ => Raise (KeyError (Some t1))
      | _, None => Raise (KeyError (Some t2))
      end
  | _, _ => Ok (Text "Only single table or simple comma-join supported")
  end.

(** ** Specification vocabulary *)

(** The positions of [rs] whose row holds, in column [col], a value of key
    [k]: what a full scan of the rows finds. *)
Definition holders (col : string) (rs : list Row) (k : Key) : gset nat :=
  list_to_set
    (filter (λ p, (λ r, key_of (dict_get r col)) <$> rs !! p = Some k)
       (seq 0 (length rs))).

(** [idx] is the dict [{k: f k}] restricted to the keys with a non-empty set. *)
Definition represents (idx : HashIndex) (f : Key → gset nat) : Prop :=
  ∀ k, data idx !! k = if decide (f k = ∅) then None else Some (f k).

(** [idx] is exactly the index of column [col] over the rows [rs]. *)
Definition index_of (idx : HashIndex) (col : string) (rs : list Row) : Prop :=
  represents idx (holders col rs).

Definition indexes_consistent (t : Table) : Prop :=
  ∀ col idx, indexes t !! col = Some idx → index_of idx col (rows t).

(** The index of one column filled by the loop of [_rebuild_indexes]. *)
Fixpoint scan_from (col : string) (rowid : nat) (rs : list Row) (idx : HashIndex)
  : HashIndex :=
  match rs with
  | [] => idx
  | row :: rs' => scan_from col (S rowid) rs' (HashIndex.add idx (dict_get row col) rowid)
  end.

(** Every row has a value for every declared column, and constraints are
    on declared columns. *)
Definition rows_complete (t : Table) : Prop :=
  (∀ row c, row ∈ rows t → c ∈ column_order t → is_Some (dict_lookup row c))
  ∧ (∀ c, is_Some (indexes t !! c) → c ∈ column_order t).

(** The invariant of a table in use: consistent indexes, an index for every
    unique column, complete rows, and a declaration for every column of the
    schema dict. *)
Definition table_inv (t : Table) : Prop :=
  indexes_consistent t
  ∧ (∀ c, c ∈ unique_columns t → is_Some (indexes t !! c))
  ∧ rows_complete t
  ∧ (∀ c, is_Some (columns t !! c) → c ∈ column_order t).

(** No two rows hold the same value in a unique column. *)
Definition unique_rows (t : Table) : Prop :=
  ∀ col, col ∈ unique_columns t →
    NoDup ((λ r, key_of (dict_get r col)) <$> rows t).

(** A table as the constructor and the constraint definitions leave it. *)
Inductive configured : Table → Prop :=
  | configured_init name_ cols :
      configured (Table.__init__ name_ cols)
  | configured_primary_key t colname autoincrement :
      configured t → configured (Table.define_primary_key t colname autoincrement).1
  | configured_unique t colname :
      configured t → configured (Table.add_unique t colname).1.

(** The tables that calls of [insert], [update] and [delete] lead to, whatever
    their arguments and whether or not they raise. *)
Inductive reachable `{PyBuiltins} : Table → Prop :=
  | reachable_configured t :
      configured t → reachable t
  | reachable_insert t values_dict :
      reachable t → reachable (Table.insert t values_dict).1
  | reachable_update t assignments where_fn :
      reachable t → reachable (Table.update t assignments where_fn).1
  | reachable_delete t where_fn :
      reachable t → reachable (Table.delete t where_fn).1.

(** [b] is sorted by [key], ascending or descending. *)
Definition key_lt (key : Row → DataValue) (a b : Row) : Prop :=
  py_lt (key a) (key b) = Ok true.

Fixpoint sorted_by (key : Row → DataValue) (desc : bool) (l : list Row) : Prop :=
  match l with
  | [] => True
  | x :: l' =>
      Forall (λ y, if desc then ¬ key_lt key x y else ¬ key_lt key y x) l'
      ∧ sorted_by key desc l'
  end.

(** Keys that [<] orders: all numbers, or all strings. *)
Definition numeric (v : DataValue) : Prop := is_Some (num_of v).
Definition textual (v : DataValue) : Prop := ∃ s, v = VStr s.
Definition comparable_keys (key : Row → DataValue) (l : list Row) : Prop :=
  Forall (λ r, numeric (key r)) l ∨ Forall (λ r, textual (key r)) l.

(** ** A platform for the examples *)

Definition digit_of (a : ascii) : option Z :=
  let n := Z.of_N (N_of_ascii a) in
  if bool_decide (48 ≤ n ≤ 57)%Z then Some (n - 48)%Z else None.

Fixpoint parse_digits (s : string) (acc : Z) : option Z :=
  match s with
  | EmptyString => Some acc
  | String a s' => d ← digit_of a; parse_digits s' (10 * acc + d)%Z
  end.

(** Decimal integers: digits with an optional minus sign. *)
Definition decimal_int (s : string) : option Z :=
  match s with
  | EmptyString => None
  | String "-" EmptyString => None
  | String "-" s' => Z.opp <$> parse_digits s' 0
  | _ => parse_digits s 0
  end.

(** Decimal fractions [ddd.ddd], read exactly. *)
Fixpoint parse_fraction (s : string) (num : Z) (den : positive) (seen_dot : bool)
  : option Qc :=
  match s with
  | EmptyString => if seen_dot then Some (Q2Qc (num # den)) else None
  | String "." s' => if seen_dot then None else parse_fraction s' num den true
  | String a s' =>
      d ← digit_of a;
      parse_fraction s' (10 * num + d)%Z (if seen_dot then 10 * den else den)%positive
        seen_dot
  end.

(** Integer literals in decimal, fractions read exactly, and exact addition:
    the builtins on inputs whose results are representable. *)
Definition decimal_builtins : PyBuiltins :=
  {| int_of_str := decimal_int;
     float_of_str := λ s, parse_fraction s 0 1 false;
     float_add := Qcplus |}.

(** ** Scenario tables *)

Definition column (n : string) (ty : pytype) (null : bool) : Column :=
  {| name := n; dtype := ty; nullable := null |}.

(** [users(id int, name str)] with [id] an autoincrement primary key. *)
Definition users_auto : Table :=
  (Table.define_primary_key
     (Table.__init__ "users" [column "id" Tint true; column "name" Tstr true])
     "id" true).1.

(** [users(id int primary key autoincrement, email str unique not null)] *)
Definition users_email : Table :=
  (Table.add_unique
     (Table.define_primary_key
        (Table.__init__ "users" [column "id" Tint false; column "email" Tstr false])
        "id" true).1
     "email").1.

(** [people(id int, age int)], no constraint *)
Definition people : Table :=
  Table.__init__ "people" [column "id" Tint true; column "age" Tint true].

(** [users(id int primary key, email str unique)] holding two rows. *)
Definition two_users : Table :=
  let t := (@Table.insert decimal_builtins users_email [("email", VStr "a@x")]).1 in
  (@Table.insert decimal_builtins t [("email", VStr "b@x")]).1.

(** The join scenario: [users(id, name)] and [orders(oid, user_id)]. *)
Definition join_users : Table :=
  (@Table.insert decimal_builtins
     (Table.__init__ "users" [column "id" Tint true; column "name" Tstr true])
     [("id", VInt 1); ("name", VStr "A")]).1.

Definition join_orders : Table :=
  let t0 := Table.__init__ "orders" [column "oid" Tint true; column "user_id" Tint true] in
  let t1 := (@Table.insert decimal_builtins t0 [("oid", VInt 1); ("user_id", VInt 1)]).1 in
  (@Table.insert decimal_builtins t1 [("oid", VInt 2); ("user_id", VInt 2)]).1.

Definition join_db : MiniDB :=
  {| tables := <["orders" := join_orders]> (<["users" := join_users]> ∅) |}.

(** [users.id = orders.user_id] *)
Definition join_condition : exp.Expression :=
  exp.EQ (exp.Column "users" "id") (exp.Column "orders" "user_id").

(** [SELECT * FROM users, orders WHERE users.id = orders.user_id] *)
Definition join_query : Select :=
  {| sel_tables := ["users"; "orders"];
     sel_where := Some join_condition;
     sel_expressions := [exp.Star];
     sel_order := None;
     sel_limit := None |}.

(** [... WHERE users.id = orders.user_id AND users.name = 'A'] *)
Definition join_filter_query : Select :=
  {| sel_tables := ["users"; "orders"];
     sel_where :=
       Some (exp.And join_condition
               (exp.EQ (exp.Column "users" "name") (exp.Literal "A" true)));
     sel_expressions := [exp.Star];
     sel_order := None;
     sel_limit := None |}.

(** The five rows of the select scenario, with ages 10 to 50. *)
Definition five_people : Table :=
  foldl (λ t n, (@Table.insert decimal_builtins t [("id", VInt n); ("age", VInt (n * 10))]).1)
    people [1; 2; 3; 4; 5]%Z.

(** [strict(id int not null, age int not null)] holding one row. *)
Definition strict_table : Table :=
  (@Table.insert decimal_builtins
     (Table.__init__ "strict" [column "id" Tint false; column "age" Tint false])
     [("id", VInt 1); ("age", VInt 30)]).1.

(** * Properties *)

#[local] Set Warnings "-clear-no-such-hyp".

(** ** Python equality and dict keys *)

Lemma py_eq_key_of a b : py_eq a b = true ↔ key_of a = key_of b.
Proof.
  unfold py_eq, key_of.
  destruct (num_of a) as [x|] eqn:Ha, (num_of b) as [y|] eqn:Hb.
  - rewrite bool_decide_eq_true. split; [congruence | by intros [= ->]].
  - split; [done | by destruct b].
  - split; [done | by destruct a].
  - destruct a, b; simplify_eq/=; rewrite ?bool_decide_eq_true;
      split; (done || congruence).
Qed.

Lemma py_eq_refl a : py_eq a a = true.
Proof. by apply py_eq_key_of. Qed.

Lemma py_eq_sym a b : py_eq a b = py_eq b a.
Proof.
  apply eq_true_iff_eq. rewrite !py_eq_key_of. split; congruence.
Qed.

Lemma py_eq_false_key_of a b : py_eq a b = false ↔ key_of a ≠ key_of b.
Proof.
  rewrite <-py_eq_key_of. destruct (py_eq a b); split; congruence.
Qed.

(** ** Dicts *)

Lemma dict_lookup_set r k v k' :
  dict_lookup (dict_set r k v) k' =
    if decide (k = k') then Some v else dict_lookup r k'.
Proof.
  induction r as [|[k0 v0] r IH]; simpl.
  - case_bool_decide; case_decide; congruence.
  - case_bool_decide as H0; simpl.
    + subst k0. case_bool_decide; case_decide; congruence.
    + rewrite IH. case_bool_decide; case_decide; congruence.
Qed.

Lemma dict_get_set r k v k' :
  dict_get (dict_set r k v) k' = if decide (k = k') then v else dict_get r k'.
Proof. unfold dict_get. rewrite dict_lookup_set. by case_decide. Qed.

Lemma dict_get_lookup r k v : dict_lookup r k = Some v → dict_get r k = v.
Proof. unfold dict_get. by intros ->. Qed.

(** ** HashIndex *)

Section hash_index.
Implicit Types (idx : HashIndex) (f g : Key → gset nat) (v : DataValue).

Lemma HashIndex_eq idx idx' : data idx = data idx' → idx = idx'.
Proof. destruct idx, idx'; simpl; congruence. Qed.

Lemma represents_inj idx idx' f : represents idx f → represents idx' f → idx = idx'.
Proof.
  intros H H'. apply HashIndex_eq, map_eq. intros k. by rewrite H, H'.
Qed.

Lemma represents_ext idx f g : (∀ k, f k = g k) → represents idx f → represents idx g.
Proof. intros Hfg H k. rewrite <-Hfg. apply H. Qed.

Lemma represents_lookup idx f v :
  represents idx f → HashIndex.lookup idx v = f (key_of v).
Proof.
  intros H. unfold HashIndex.lookup. rewrite H. by case_decide.
Qed.

Lemma represents_nonempty idx f k s : represents idx f → data idx !! k = Some s → s ≠ ∅.
Proof. intros H. rewrite H. case_decide; congruence. Qed.

Lemma represents_empty : represents HashIndex.empty (λ _, ∅).
Proof. intros k. simpl. rewrite lookup_empty. by case_decide. Qed.

Lemma represents_clear idx : represents (HashIndex.clear idx) (λ _, ∅).
Proof. apply represents_empty. Qed.

Lemma represents_add idx f v p :
  represents idx f →
  represents (HashIndex.add idx v p)
    (λ k, if decide (k = key_of v) then {[p]} ∪ f k else f k).
Proof.
  intros H k. unfold HashIndex.add; cbn beta; simpl.
  destruct (decide (k = key_of v)) as [Hk|Hk].
  - subst k. rewrite lookup_insert_eq, H.
    rewrite (decide_False (P := _ ∪ _ = ∅)) by (clear; set_solver).
    by destruct (decide (f (key_of v) = ∅)) as [->|].
  - rewrite lookup_insert_ne by done. apply H.
Qed.

Lemma represents_remove idx f v p :
  represents idx f →
  represents (HashIndex.remove idx v p)
    (λ k, if decide (k = key_of v) then f k ∖ {[p]} else f k).
Proof.
  intros H k. unfold HashIndex.remove. cbn beta. rewrite (H (key_of v)).
  destruct (decide (f (key_of v) = ∅)) as [He|Hne].
  - rewrite H. destruct (decide (k = key_of v)) as [Hk|Hk]; [|done].
    subst k. rewrite He, empty_difference_L. by rewrite decide_True.
  - rewrite bool_decide_eq_true_2 by done.
    case_bool_decide as Hs; simpl;
      destruct (decide (k = key_of v)) as [Hk|Hk]; try subst k.
    + by rewrite lookup_delete_eq, decide_True.
    + rewrite lookup_delete_ne by done. apply H.
    + by rewrite lookup_insert_eq, decide_False.
    + rewrite lookup_insert_ne by done. apply H.
Qed.

End hash_index.

(** ** The scan of a column *)

Section scan.
Implicit Types (rs : list Row) (idx : HashIndex) (k : Key).

Lemma elem_of_holders col rs k p :
  p ∈ holders col rs k ↔ ∃ r, rs !! p = Some r ∧ key_of (dict_get r col) = k.
Proof.
  unfold holders. rewrite elem_of_list_to_set, list_elem_of_filter, elem_of_seq.
  split.
  - intros [Hk _]. destruct (rs !! p) as [r|]; simplify_eq/=. eauto.
  - intros (r & Hr & Hk). rewrite Hr; simpl. split; [by rewrite Hk|].
    apply lookup_lt_Some in Hr. lia.
Qed.

Lemma holders_nil col k : holders col [] k = ∅.
Proof. done. Qed.

Lemma holders_snoc col rs row k :
  holders col (rs ++ [row]) k =
    if decide (k = key_of (dict_get row col))
    then {[length rs]} ∪ holders col rs k else holders col rs k.
Proof.
  apply set_eq. intros p. case_decide as Hk;
    rewrite ?elem_of_union, ?elem_of_singleton, !elem_of_holders.
  - split.
    + intros (r & Hr & Hkr). apply lookup_snoc_Some in Hr as [[_ Hr]|[-> ->]]; eauto.
    + intros [->|(r & Hr & Hkr)].
      * exists row. by rewrite lookup_snoc_Some; eauto.
      * exists r. split; [|done]. apply lookup_app_l_Some; done.
  - split.
    + intros (r & Hr & Hkr). apply lookup_snoc_Some in Hr as [[_ Hr]|[-> ->]]; eauto.
      congruence.
    + intros (r & Hr & Hkr). exists r. split; [|done]. by apply lookup_app_l_Some.
Qed.

Lemma holders_insert col rs i row row' k :
  rs !! i = Some row →
  holders col (<[i := row']> rs) k =
    if decide (k = key_of (dict_get row' col))
    then {[i]} ∪ holders col rs k
    else holders col rs k ∖ {[i]}.
Proof.
  intros Hi. pose proof (lookup_lt_Some _ _ _ Hi) as Hlt.
  apply set_eq. intros p.
  case_decide as Hk;
    rewrite ?elem_of_union, ?elem_of_difference, ?elem_of_singleton, !elem_of_holders.
  - split.
    + intros (r & Hr & Hkr). destruct (decide (p = i)) as [->|Hne]; [by left|].
      rewrite list_lookup_insert_ne in Hr by done. eauto.
    + intros [->|(r & Hr & Hkr)].
      * exists row'. by rewrite list_lookup_insert_eq.
      * destruct (decide (i = p)) as [->|Hne].
        -- exists row'. by rewrite list_lookup_insert_eq.
        -- exists r. by rewrite list_lookup_insert_ne.
  - split.
    + intros (r & Hr & Hkr). destruct (decide (i = p)) as [->|Hne].
      * rewrite list_lookup_insert_eq in Hr by done. congruence.
      * rewrite list_lookup_insert_ne in Hr by done. eauto.
    + intros [(r & Hr & Hkr) Hne]. exists r. by rewrite list_lookup_insert_ne.
Qed.

(** Adding the new last row to the index of a column. *)
Lemma index_of_add idx col rs row :
  index_of idx col rs →
  index_of (HashIndex.add idx (dict_get row col) (length rs)) col (rs ++ [row]).
Proof.
  intros H. eapply represents_ext; [|by apply represents_add].
  intros k. cbn beta. by rewrite holders_snoc.
Qed.

(** Replacing the value of a row in the index of the column assigned. *)
Lemma index_of_update idx col rs i row v :
  index_of idx col rs → rs !! i = Some row →
  index_of (HashIndex.add (HashIndex.remove idx (dict_get row col) i) v i) col
    (<[i := dict_set row col v]> rs).
Proof.
  intros H Hi. eapply represents_ext; [|by apply represents_add, represents_remove].
  intros k. cbn beta. rewrite (holders_insert _ _ _ row) by done.
  rewrite dict_get_set, (decide_True (P := col = col)) by done.
  destruct (decide (k = key_of v)) as [Hk|Hk].
  - subst k. case_decide; [|done].
    apply set_eq. intros p.
    rewrite !elem_of_union, elem_of_difference, elem_of_singleton.
    destruct (decide (p = i)); naive_solver.
  - case_decide as Hk'; [done|].
    apply set_eq. intros p.
    rewrite elem_of_difference, elem_of_singleton, elem_of_holders.
    split; [|naive_solver]. intros (r & Hr & Hkr). split; [eauto|].
    intros ->. congruence.
Qed.

(** Assigning to another column leaves the index of [col] as it is. *)
Lemma index_of_update_other idx col col' rs i row v :
  col' ≠ col → index_of idx col rs → rs !! i = Some row →
  index_of idx col (<[i := dict_set row col' v]> rs).
Proof.
  intros Hne H Hi. eapply represents_ext; [|done].
  intros k. cbn beta. rewrite (holders_insert _ _ _ row) by done.
  rewrite dict_get_set, (decide_False (P := col' = col)) by done.
  apply set_eq. intros p. case_decide as Hk.
  - rewrite elem_of_union, elem_of_singleton, !elem_of_holders.
    split; [eauto|]. intros [->|]; eauto.
  - rewrite elem_of_difference, elem_of_singleton, !elem_of_holders.
    split; [|naive_solver]. intros (r & Hr & Hkr). split; [eauto|].
    intros ->. congruence.
Qed.

End scan.

(** ** Rebuilding the indexes *)

Section rebuild.
Implicit Types (rs : list Row) (ixs : gmap string HashIndex) (t : Table).

Lemma index_row_lookup row rowid ixs col :
  Table.index_row row rowid ixs !! col =
    (λ idx, HashIndex.add idx (dict_get row col) rowid) <$> ixs !! col.
Proof.
  unfold Table.index_row. rewrite map_lookup_imap. by destruct (ixs !! col).
Qed.

Lemma index_rows_lookup rs rowid ixs col :
  Table.index_rows rowid rs ixs !! col = scan_from col rowid rs <$> ixs !! col.
Proof.
  revert rowid ixs. induction rs as [|row rs IH]; intros rowid ixs; simpl.
  - by destruct (ixs !! col).
  - rewrite IH, index_row_lookup. by destruct (ixs !! col).
Qed.

Lemma scan_from_snoc col rowid rs row idx :
  scan_from col rowid (rs ++ [row]) idx =
    HashIndex.add (scan_from col rowid rs idx) (dict_get row col) (rowid + length rs).
Proof.
  revert rowid idx. induction rs as [|r rs IH]; intros rowid idx; simpl.
  - by rewrite Nat.add_0_r.
  - rewrite IH. f_equal. lia.
Qed.

(** The loop of [_rebuild_indexes] computes the index of each column. *)
Lemma scan_from_index_of col rs :
  index_of (scan_from col 0 rs HashIndex.empty) col rs.
Proof.
  induction rs as [|row rs IH] using rev_ind.
  - apply represents_empty.
  - rewrite scan_from_snoc. simpl. by apply index_of_add.
Qed.

Lemma rebuild_indexes_lookup t col :
  indexes (Table._rebuild_indexes t) !! col =
    (λ _, scan_from col 0 (rows t) HashIndex.empty) <$> indexes t !! col.
Proof.
  unfold Table._rebuild_indexes; simpl.
  rewrite index_rows_lookup, lookup_fmap. by destruct (indexes t !! col).
Qed.

Lemma rebuild_indexes_consistent t : indexes_consistent (Table._rebuild_indexes t).
Proof.
  intros col idx. rewrite rebuild_indexes_lookup.
  destruct (indexes t !! col); intros [= <-]. apply scan_from_index_of.
Qed.

(** Consistent indexes are the indexes a rebuild computes. *)
Lemma indexes_consistent_rebuild t :
  indexes_consistent t ↔ indexes (Table._rebuild_indexes t) = indexes t.
Proof.
  split.
  - intros H. apply map_eq. intros col. rewrite rebuild_indexes_lookup.
    destruct (indexes t !! col) as [idx|] eqn:Hidx; [|done]. simpl. f_equal.
    eapply represents_inj; [apply scan_from_index_of|by apply H].
  - intros Heq col idx Hidx. rewrite <-Heq in Hidx.
    by apply (rebuild_indexes_consistent t).
Qed.

End rebuild.

(** ** The invariant of a configured table *)

Section configured.
Implicit Types (t : Table).

Lemma index_of_nil_empty col : index_of HashIndex.empty col [].
Proof. apply represents_empty. Qed.

Lemma init_columns cols (m : gmap string Column) c :
  is_Some (foldl (λ m c, <[name c := c]> m) m cols !! c) →
  c ∈ name <$> cols ∨ is_Some (m !! c).
Proof.
  revert m. induction cols as [|x cols IH]; intros m; simpl; [by right|].
  intros [H|H]%IH.
  - left. by right.
  - destruct (decide (name x = c)) as [<-|Hne].
    + left. by left.
    + right. by rewrite lookup_insert_ne in H.
Qed.

Lemma ensure_index_lookup t colname c :
  indexes (Table._ensure_index t colname) !! c =
    if decide (colname = c)
    then Some (default HashIndex.empty (indexes t !! colname))
    else indexes t !! c.
Proof.
  unfold Table._ensure_index.
  destruct (indexes t !! colname) as [idx|] eqn:Hidx; simpl.
  - case_decide; by subst.
  - case_decide.
    + subst. by rewrite lookup_insert_eq.
    + by rewrite lookup_insert_ne.
Qed.

Lemma ensure_index_other t colname :
  rows (Table._ensure_index t colname) = rows t
  ∧ unique_columns (Table._ensure_index t colname) = unique_columns t
  ∧ columns (Table._ensure_index t colname) = columns t
  ∧ column_order (Table._ensure_index t colname) = column_order t.
Proof. unfold Table._ensure_index. by destruct (indexes t !! colname). Qed.

(** Declaring a constraint on a declared column of an empty table. *)
Lemma constrain_inv t colname :
  rows t = [] → table_inv t → is_Some (columns t !! colname) →
  let t' := Table._ensure_index
              (set_unique_columns t ({[colname]} ∪ unique_columns t)) colname in
  rows t' = [] ∧ table_inv t'.
Proof.
  intros Hrows Hinv Hcol t'. revert Hinv.
  unfold table_inv, indexes_consistent, rows_complete.
  intros (Hcons & Huniq & [Hrc Hix] & Hcols).
  destruct (ensure_index_other
    (set_unique_columns t ({[colname]} ∪ unique_columns t)) colname)
    as (Hr & Hu & Hc & Ho).
  fold t' in Hr, Hu, Hc, Ho. simpl in Hr, Hu, Hc, Ho.
  rewrite Hr, Hu, Hc, Ho, Hrows.
  assert (∀ c, indexes t' !! c =
    if decide (colname = c) then Some (default HashIndex.empty (indexes t !! colname))
    else indexes t !! c) as Hlook
    by (intros c; unfold t'; by rewrite ensure_index_lookup).
  rewrite Hrows in Hcons.
  split; [done|]. repeat split.
  - intros c idx. rewrite Hlook. case_decide as Hc'; [|by apply Hcons].
    destruct (indexes t !! colname) as [idx0|] eqn:Hidx; simpl; intros [= <-].
    + by apply (Hcons colname).
    + apply index_of_nil_empty.
  - intros c Hin. rewrite Hlook. case_decide; [done|]. apply Huniq. set_solver.
  - by intros row c ?%elem_of_nil.
  - intros c. rewrite Hlook.
    case_decide; [subst; intros _; by apply Hcols | apply Hix].
  - apply Hcols.
Qed.

Lemma configured_inv t : configured t → rows t = [] ∧ table_inv t.
Proof.
  induction 1 as [name_ cols|t colname autoincrement _ [Hrows Hinv]
                  |t colname _ [Hrows Hinv]].
  - split; [done|]. repeat split; simpl.
    + by intros c idx.
    + set_solver.
    + by intros row c ?%elem_of_nil.
    + intros c [? H]. by rewrite lookup_empty in H.
    + intros c [H|[? H]]%init_columns; [done|]. by rewrite lookup_empty in H.
  - unfold Table.define_primary_key.
    destruct (columns t !! colname) as [c|] eqn:Hc; [|done].
    destruct (Table.pk_column_truthy t); [done|].
    pose proof (constrain_inv (set_pk_column t (Some colname)) colname Hrows Hinv)
      as Hstep.
    simpl in Hstep. specialize (Hstep (mk_is_Some _ _ Hc)).
    destruct (autoincrement && bool_decide (dtype c = Tint)); exact Hstep.
  - unfold Table.add_unique.
    destruct (columns t !! colname) as [c|] eqn:Hc; [|done].
    exact (constrain_inv t colname Hrows Hinv (mk_is_Some _ _ Hc)).
Qed.

End configured.

(** ** insert *)

Section insert.
Context `{PyBuiltins}.
Implicit Types (t : Table) (row values_dict : Row).

Lemma set_pk_counter_id t : set_pk_counter t (_pk_counter t) = t.
Proof. by destruct t. Qed.

(** The autoincrement block only assigns the counter. *)
Lemma insert_autoincrement_frame t values_dict row :
  (Table.insert_autoincrement t values_dict row).1 =
    set_pk_counter t (_pk_counter (Table.insert_autoincrement t values_dict row).1).
Proof.
  unfold Table.insert_autoincrement.
  repeat case_match; simpl; by rewrite ?set_pk_counter_id.
Qed.

Lemma insert_autoincrement_row t values_dict row t1 row' none_key c :
  Table.insert_autoincrement t values_dict row = (t1, Ok (row', none_key)) →
  is_Some (dict_lookup row c) → is_Some (dict_lookup row' c).
Proof.
  unfold Table.insert_autoincrement.
  repeat case_match; intros; simplify_eq/=; try done;
    rewrite dict_lookup_set; by case_decide.
Qed.

Lemma new_row_lookup t values_dict c :
  dict_lookup (Table.new_row t values_dict) c =
    if decide (c ∈ column_order t) then Some (dict_get values_dict c) else None.
Proof.
  unfold Table.new_row.
  change None with (dict_lookup [] c) at 1. generalize (@nil (string * DataValue)).
  induction (column_order t) as [|c0 cs IH]; intros acc; simpl.
  - done.
  - rewrite IH, dict_lookup_set.
    destruct (decide (c ∈ cs)) as [Hin|Hin].
    + by rewrite decide_True by by right.
    + destruct (decide (c0 = c)) as [->|Hne].
      * by rewrite decide_True by by left.
      * rewrite decide_False; [done|]. by intros [->|?]%elem_of_cons.
Qed.

Lemma new_row_complete t values_dict c :
  c ∈ column_order t → is_Some (dict_lookup (Table.new_row t values_dict) c).
Proof. intros Hin. rewrite new_row_lookup. by rewrite decide_True. Qed.

(** The checks depend on the schema and the indexes, not on the counter. *)
Lemma insert_validate_counter t c row :
  Table.insert_validate (set_pk_counter t c) row = Table.insert_validate t row.
Proof. induction row as [|[k v] row IH]; simpl; [done|]. by rewrite IH. Qed.

Lemma insert_check_unique_counter t c row cols :
  Table.insert_check_unique (set_pk_counter t c) row cols =
    Table.insert_check_unique t row cols.
Proof. induction cols as [|col cols IH]; simpl; [done|]. by rewrite IH. Qed.

(** An insert that raises has assigned at most the counter. *)
Lemma insert_raise t values_dict e :
  (Table.insert t values_dict).2 = Raise e →
  (Table.insert t values_dict).1 =
    set_pk_counter t (_pk_counter (Table.insert t values_dict).1).
Proof.
  unfold Table.insert.
  pose proof (insert_autoincrement_frame t values_dict (Table.new_row t values_dict)) as Hf.
  destruct (Table.insert_autoincrement t values_dict (Table.new_row t values_dict))
    as [t1 [[row none_key]|e1]]; simpl in *; [|done].
  by case_match.
Qed.

(** An insert that returns has appended one checked row and indexed it. *)
Lemma insert_ok t values_dict rowid :
  (Table.insert t values_dict).2 = Ok rowid →
  ∃ row c,
    rowid = length (rows t)
    ∧ Table.insert_autoincrement t values_dict (Table.new_row t values_dict)
        = (set_pk_counter t c, Ok (row, false))
    ∧ Table.insert_validate t row = Ok ()
    ∧ Table.insert_check_unique t row (elements (unique_columns t)) = Ok ()
    ∧ (Table.insert t values_dict).1 =
        set_indexes (set_rows (set_pk_counter t c) (rows t ++ [row]))
          (Table.index_row row rowid (indexes t)).
Proof.
  unfold Table.insert.
  pose proof (insert_autoincrement_frame t values_dict (Table.new_row t values_dict)) as Hf.
  destruct (Table.insert_autoincrement t values_dict (Table.new_row t values_dict))
    as [t1 [[row none_key]|e1]]; simpl in *; [|done].
  rewrite Hf. rewrite insert_validate_counter, insert_check_unique_counter. simpl.
  destruct (Table.insert_validate t row) as [[]|] eqn:Hv; simpl; [|done].
  destruct none_key; simpl; [done|].
  destruct (Table.insert_check_unique t row _) as [[]|] eqn:Hu; simpl; [|done].
  intros [= <-]. exists row, (_pk_counter t1). by rewrite <-Hf.
Qed.

Lemma index_row_consistent t row :
  indexes_consistent t →
  indexes_consistent
    (set_indexes (set_rows t (rows t ++ [row]))
       (Table.index_row row (length (rows t)) (indexes t))).
Proof.
  intros Hcons col idx. simpl. rewrite index_row_lookup.
  destruct (indexes t !! col) as [idx0|] eqn:Hidx; intros [= <-].
  by apply index_of_add, Hcons.
Qed.

Lemma insert_inv t values_dict : table_inv t → table_inv (Table.insert t values_dict).1.
Proof.
  intros Hinv.
  destruct (Table.insert t values_dict).2 as [rowid|e] eqn:Hr.
  - apply insert_ok in Hr as (row & c & -> & Hauto & Hv & Hu & ->).
    destruct Hinv as (Hcons & Huniq & [Hrc Hix] & Hcols).
    split; [|split; [|split; [split|]]]; simpl.
    + by apply (index_row_consistent (set_pk_counter t c)).
    + intros col Hcol. rewrite index_row_lookup. by apply fmap_is_Some, Huniq.
    + intros r col [Hr| ->%list_elem_of_singleton]%elem_of_app Hcol; [by apply Hrc|].
      eapply insert_autoincrement_row; [done|]. by apply new_row_complete.
    + intros col. rewrite index_row_lookup, fmap_is_Some. apply Hix.
    + done.
  - apply insert_raise in Hr as ->. by destruct t.
Qed.

End insert.

(** ** update *)

Section update.
Implicit Types (t : Table) (row : Row) (assignments : Row)
  (ixs : gmap string HashIndex) (rs : list Row).

(** The assignment loop keeps the indexes in step with the row it mutates. *)
Lemma update_assign_spec rs i assignments row ixs row' ixs' r :
  i < length rs →
  Table.update_assign i assignments row ixs = (row', ixs', r) →
  (∀ col idx, ixs !! col = Some idx → index_of idx col (<[i := row]> rs)) →
  (∀ col idx, ixs' !! col = Some idx → index_of idx col (<[i := row']> rs))
  ∧ (∀ c, is_Some (ixs' !! c) ↔ is_Some (ixs !! c))
  ∧ (∀ c, is_Some (dict_lookup row c) → is_Some (dict_lookup row' c)).
Proof.
  intros Hi. revert row ixs.
  induction assignments as [|[col new_val] rest IH]; intros row ixs; simpl.
  - intros [= <- <- <-] Hixs. done.
  - destruct (dict_lookup row col) as [old|] eqn:Hold; [|by intros [= <- <- <-] Hixs].
    intros Hrec Hixs. apply IH in Hrec as (Hcons & Hdom & Hkeys).
    + split; [done|]. split.
      * intros c. rewrite Hdom. destruct (ixs !! col) eqn:Hcol; [|done].
        destruct (decide (col = c)) as [<-|Hne].
        -- rewrite lookup_insert_eq, Hcol. by split.
        -- by rewrite lookup_insert_ne.
      * intros c Hc. apply Hkeys. rewrite dict_lookup_set. by case_decide.
    + assert (<[i := row]> rs !! i = Some row) as Hrow
        by by apply list_lookup_insert_eq.
      intros c idx. rewrite <-(list_insert_insert_eq rs i _ row).
      destruct (ixs !! col) as [idx0|] eqn:Hcol.
      * destruct (decide (col = c)) as [<-|Hne].
        -- rewrite lookup_insert_eq. intros [= <-].
           rewrite <-(dict_get_lookup row col old) by done.
           apply index_of_update; [by apply Hixs|done].
        -- rewrite lookup_insert_ne by done. intros Hc.
           apply (index_of_update_other _ _ col _ _ row); [done|by apply Hixs|done].
      * intros Hc. destruct (decide (col = c)) as [<-|Hne]; [congruence|].
        apply (index_of_update_other _ _ col _ _ row); [done|by apply Hixs|done].
Qed.

(** It raises only [KeyError], on an assigned column the row does not have. *)
Lemma update_assign_ok i assignments row ixs :
  (∀ c, c ∈ assignments.*1 → is_Some (dict_lookup row c)) →
  (Table.update_assign i assignments row ixs).2 = Ok ().
Proof.
  revert row ixs. induction assignments as [|[col new_val] rest IH];
    intros row ixs Hkeys; simpl; [done|].
  destruct (Hkeys col) as [old ->]; [by left|].
  apply IH. intros c Hc. rewrite dict_lookup_set. case_decide; [done|].
  apply Hkeys. by right.
Qed.

(** With an index on every unique column, the checks of a row raise
    nothing but a unique/PK violation. *)
Lemma update_validate_raise t row rowid assignments e :
  (∀ c, c ∈ unique_columns t → is_Some (indexes t !! c)) →
  Table.update_validate t row rowid assignments = Raise e →
  ∃ c v, (c, v) ∈ assignments ∧ e = ValueError (UniquePKViolation c v).
Proof.
  intros Huniq. induction assignments as [|[col new_val] rest IH]; simpl; [done|].
  destruct (bool_decide (col ∈ unique_columns t)
            && negb (py_eq new_val (dict_get row col))) eqn:Hcheck; simpl.
  - unfold Table._check_unique_violation.
    apply andb_true_iff in Hcheck as [Hin%bool_decide_eq_true _].
    rewrite bool_decide_eq_true_2 by done.
    destruct (Huniq col Hin) as [idx ->].
    case_bool_decide; simpl.
    + intros [= <-]. exists col, new_val. split; [by left|done].
    + intros (c & v & Hcv & ->)%IH. exists c, v. split; [by right|done].
  - intros (c & v & Hcv & ->)%IH. exists c, v. split; [by right|done].
Qed.

(** One row of [update]: the table after the assignments is well formed. *)
Lemma update_row_inv t rowid row assignments row' ixs' r :
  table_inv t → rows t !! rowid = Some row →
  Table.update_assign rowid assignments row (indexes t) = (row', ixs', r) →
  table_inv (set_indexes (set_rows t (<[rowid := row']> (rows t))) ixs').
Proof.
  intros (Hcons & Huniq & [Hrc Hix] & Hcols) Hrow Hassign.
  pose proof (lookup_lt_Some _ _ _ Hrow) as Hlt.
  eapply update_assign_spec in Hassign as (Hcons' & Hdom & Hkeys); [|done|].
  - split; [|split; [|split; [split|]]]; simpl.
    + done.
    + intros c Hc. by apply Hdom, Huniq.
    + intros r0 c [j Hj]%list_elem_of_lookup_1 Hc.
      rewrite list_lookup_insert in Hj. case_decide as Hij.
      * simplify_eq. apply Hkeys, (Hrc row); [|done].
        by eapply list_elem_of_lookup_2.
      * apply (Hrc r0); [|done]. by eapply list_elem_of_lookup_2.
    + intros c Hc. by apply Hix, Hdom.
    + done.
  - rewrite list_insert_id by done. apply Hcons.
Qed.

Lemma update_loop_inv t assignments where_fn n rowid count :
  table_inv t →
  table_inv (Table.update_loop t assignments where_fn n rowid count).1.
Proof.
  revert t rowid count. induction n as [|n IH]; intros t rowid count Hinv; simpl; [done|].
  destruct (rows t !! rowid) as [row|] eqn:Hrow; [|done].
  destruct (where_matches where_fn row) as [[|]|]; [|by apply IH|done].
  destruct (Table.update_validate t row rowid assignments); [|done].
  destruct (Table.update_assign rowid assignments row (indexes t))
    as [[row' ixs'] r] eqn:Hassign.
  pose proof (update_row_inv _ _ _ _ _ _ _ Hinv Hrow Hassign) as Hinv'.
  destruct r; [by apply IH|done].
Qed.

Lemma update_inv t assignments where_fn :
  table_inv t → table_inv (Table.update t assignments where_fn).1.
Proof. apply update_loop_inv. Qed.

(** What [update] can raise when it assigns declared columns only. *)
Lemma update_loop_raise t assignments where_fn n rowid count e :
  table_inv t →
  (∀ c, c ∈ assignments.*1 → c ∈ column_order t) →
  (Table.update_loop t assignments where_fn n rowid count).2 = Raise e →
  (∃ c v, (c, v) ∈ assignments ∧ e = ValueError (UniquePKViolation c v))
  ∨ (∃ f r, where_fn = Some f ∧ f r = Raise e).
Proof.
  revert t rowid count. induction n as [|n IH]; intros t rowid count Hinv Hdecl;
    simpl; [done|].
  destruct (rows t !! rowid) as [row|] eqn:Hrow; [|done].
  destruct (where_matches where_fn row) as [[|]|e'] eqn:Hw; simpl.
  - destruct (Table.update_validate t row rowid assignments) as [[]|e'] eqn:Hv; simpl.
    + destruct (Table.update_assign rowid assignments row (indexes t))
        as [[row' ixs'] r] eqn:Hassign.
      pose proof (update_row_inv _ _ _ _ _ _ _ Hinv Hrow Hassign) as Hinv'.
      assert (r = Ok ()) as ->.
      { change r with (row', ixs', r).2. rewrite <-Hassign.
        apply update_assign_ok. intros c Hc.
        destruct Hinv as (_ & _ & [Hrc _] & _). apply (Hrc row); [|by apply Hdecl].
        by eapply list_elem_of_lookup_2. }
      by apply IH.
    + intros [= <-]. left. eapply update_validate_raise; [|done]. apply Hinv.
  - by apply IH.
  - intros [= <-]. right. destruct where_fn as [f|]; [|done]. by exists f, row.
Qed.

End update.

(** ** delete *)

Section delete.
Implicit Types (t : Table) (rs : list Row) (f : Predicate).

(** The scan returns, or raises what the predicate raises on some row. *)
Lemma delete_scan_ok f rs new_rows count :
  Table.delete_scan f rs = Ok (new_rows, count) →
  Forall (λ r, ∃ b, f r = Ok b) rs
  ∧ new_rows = filter (λ r, f r = Ok false) rs
  ∧ count = length (filter (λ r, f r = Ok true) rs).
Proof.
  revert new_rows count. induction rs as [|row rs IH]; intros new_rows count; simpl.
  - by intros [= <- <-].
  - destruct (f row) as [b|] eqn:Hf; simpl; [|done].
    destruct (Table.delete_scan f rs) as [[kept n]|]; simpl; [|done].
    destruct (IH kept n eq_refl) as (Htot & -> & ->).
    intros Heq. split; [constructor; eauto|].
    rewrite !filter_cons, Hf.
    destruct b; simplify_eq; repeat case_decide; simplify_eq/=; done.
Qed.

Lemma delete_scan_total f rs :
  Forall (λ r, ∃ b, f r = Ok b) rs →
  Table.delete_scan f rs =
    Ok (filter (λ r, f r = Ok false) rs, length (filter (λ r, f r = Ok true) rs)).
Proof.
  induction 1 as [|row rs [b Hf] _ IH]; simpl; [done|].
  rewrite Hf, IH, !filter_cons, Hf. simpl.
  destruct b; repeat case_decide; simplify_eq/=; done.
Qed.

Lemma delete_scan_raise f rs e :
  Table.delete_scan f rs = Raise e → ∃ r, r ∈ rs ∧ f r = Raise e.
Proof.
  induction rs as [|row rs IH]; simpl; [done|].
  destruct (f row) as [b|e'] eqn:Hf; simpl.
  - destruct (Table.delete_scan f rs) as [[kept n]|e'] eqn:Hscan; simpl; [done|].
    intros [= <-]. destruct IH as (r & Hr & Hfr); [done|]. exists r. split; [by right|done].
  - intros [= <-]. exists row. split; [by left|done].
Qed.

Lemma delete_inv t where_fn : table_inv t → table_inv (Table.delete t where_fn).1.
Proof.
  intros (Hcons & Huniq & [Hrc Hix] & Hcols). unfold Table.delete.
  destruct where_fn as [f|].
  - destruct (Table.delete_scan f (rows t)) as [[new_rows count]|] eqn:Hscan; [|done].
    apply delete_scan_ok in Hscan as (_ & -> & _).
    split; [|split; [|split; [split|]]]; simpl.
    + apply (rebuild_indexes_consistent (set_rows t _)).
    + intros c Hc. rewrite index_rows_lookup, lookup_fmap.
      by rewrite !fmap_is_Some; apply Huniq.
    + intros row c [_ Hrow]%list_elem_of_filter. by apply Hrc.
    + intros c. rewrite index_rows_lookup, lookup_fmap, !fmap_is_Some. apply Hix.
    + done.
  - split; [|split; [|split; [split|]]]; simpl.
    + intros col idx. simpl. rewrite lookup_fmap.
      destruct (indexes t !! col); intros [= <-]. apply represents_clear.
    + intros c Hc. rewrite lookup_fmap, fmap_is_Some. by apply Huniq.
    + by intros row c ?%elem_of_nil.
    + intros c. rewrite lookup_fmap, fmap_is_Some. apply Hix.
    + done.
Qed.

End delete.

(** ** Reachable tables *)

Lemma reachable_inv `{PyBuiltins} t : reachable t → table_inv t.
Proof.
  induction 1 as [t Hconf|t values_dict _ IH|t assignments where_fn _ IH|t where_fn _ IH].
  - by apply configured_inv.
  - by apply insert_inv.
  - by apply update_inv.
  - by apply delete_inv.
Qed.

(** ** Index consistency *)

(** C1. Index-consistency invariant: in every table reached from a
    configured table by any sequence of [insert], [update] and [delete]
    calls, raising or not, the index of every indexed column maps each value
    [v] to exactly the positions whose row holds [v] in that column, keeps no
    empty entry, and is the index a full scan of the rows builds; and every
    unique column has its index. *)
Theorem index_consistency `{PyBuiltins} (t : Table) :
  reachable t →
  (∀ col idx, indexes t !! col = Some idx →
     (∀ v p, p ∈ HashIndex.lookup idx v ↔
             ∃ row, rows t !! p = Some row ∧ py_eq (dict_get row col) v = true)
     ∧ (∀ k s, data idx !! k = Some s → s ≠ ∅)
     ∧ idx = scan_from col 0 (rows t) HashIndex.empty)
  ∧ indexes (Table._rebuild_indexes t) = indexes t
  ∧ (∀ col, col ∈ unique_columns t → is_Some (indexes t !! col)).
Proof.
  intros Hreach. destruct (reachable_inv t Hreach) as (Hcons & Huniq & _).
  split; [|split; [by apply indexes_consistent_rebuild|done]].
  intros col idx Hidx. pose proof (Hcons col idx Hidx) as Hof.
  split; [|split].
  - intros v p. rewrite (represents_lookup _ _ _ Hof), elem_of_holders.
    by setoid_rewrite py_eq_key_of.
  - intros k s. by eapply represents_nonempty.
  - eapply represents_inj; [done|apply scan_from_index_of].
Qed.

Lemma index_consistency_witness :
  let t := (@Table.insert decimal_builtins users_email [("email", VStr "a@x")]).1 in
  @reachable decimal_builtins t
  ∧ indexes (Table._rebuild_indexes t) = indexes t.
Proof.
  assert (@reachable decimal_builtins
            (@Table.insert decimal_builtins users_email [("email", VStr "a@x")]).1) as Hreach.
  { apply reachable_insert, reachable_configured.
    unfold users_email. apply configured_unique, configured_primary_key, configured_init. }
  split; [exact Hreach|].
  exact (proj1 (proj2 (@index_consistency decimal_builtins _ Hreach))).
Defined.

(** The invariant starts from constraints declared on an empty table: a
    constraint declared after rows were inserted gets an empty index. *)
Lemma add_unique_after_insert_empty_index :
  let t := (Table.add_unique
              (@Table.insert decimal_builtins people [("id", VInt 1); ("age", VInt 30)]).1
              "age").1 in
  indexes t !! "age" = Some HashIndex.empty
  ∧ rows t = [[("id", VInt 1); ("age", VInt 30)]].
Proof. split; vm_compute; reflexivity. Qed.

(** ** Autoincrement *)

Section autoincrement.
Context `{PyBuiltins}.
Implicit Types (t : Table) (row values_dict : Row).

Lemma Q2Qc_inject_Z_lt (a b : Z) :
  (Q2Qc (inject_Z a) < Q2Qc (inject_Z b))%Qc ↔ (a < b)%Z.
Proof.
  unfold Qclt. simpl. rewrite !Qred_correct. unfold Qlt. simpl. lia.
Qed.

(** [max] of two integers. *)
Lemma py_max_int (c n : Z) : py_max (VInt c) (VInt n) = Ok (VInt (Z.max c n)).
Proof.
  unfold py_max, py_gt, py_lt. simpl. f_equal.
  case_bool_decide as Hlt; rewrite Q2Qc_inject_Z_lt in Hlt; f_equal; lia.
Qed.

(** The counter and the row after the autoincrement block, when the caller
    gave no key. *)
Lemma insert_autoincrement_null t values_dict row pk c :
  _autoincrement_pk t = true → pk_column t = Some pk → _pk_counter t = VInt c →
  dict_get values_dict pk = VNull →
  Table.insert_autoincrement t values_dict row =
    (set_pk_counter t (VInt (c + 1)), Ok (dict_set row pk (VInt (c + 1)), false)).
Proof.
  intros Hauto Hpk Hc Hnull. unfold Table.insert_autoincrement.
  by rewrite Hauto, Hpk, Hnull, Hc.
Qed.

(** The counter after the block when the caller gave an integer key. *)
Lemma insert_autoincrement_int t values_dict row pk c n :
  _autoincrement_pk t = true → pk_column t = Some pk → _pk_counter t = VInt c →
  dict_get values_dict pk = VInt n →
  Table.insert_autoincrement t values_dict row =
    (set_pk_counter t (VInt (Z.max c n)), Ok (row, false)).
Proof.
  intros Hauto Hpk Hc Hn. unfold Table.insert_autoincrement.
  by rewrite Hauto, Hpk, Hn, Hc, py_max_int.
Qed.

(** The counter a call of [insert] leaves is the one its autoincrement
    block leaves. *)
Lemma insert_counter t values_dict :
  _pk_counter (Table.insert t values_dict).1 =
    _pk_counter (Table.insert_autoincrement t values_dict
                   (Table.new_row t values_dict)).1.
Proof.
  unfold Table.insert.
  destruct (Table.insert_autoincrement t values_dict (Table.new_row t values_dict))
    as [t1 [[row none_key]|e1]]; simpl; [|done].
  by case_match.
Qed.

End autoincrement.

(** C3. Autoincrement resolution on insert: with autoincrement enabled and
    an integer counter [c], an insert that supplies no value (null) for the
    primary-key column assigns [c + 1] to the row and leaves the counter at
    [c + 1]; an insert that supplies the integer [n] leaves the counter at
    [max c n], never below [c].  On the empty autoincrement table the first two
    inserts without a key get the keys 1 and 2, and inserting [{id: 10}] and
    then a row without a key gives that row the key 11. *)
Theorem autoincrement_resolution `{PyBuiltins} (t : Table) (values_dict : Row)
    (pk : string) (c : Z) :
  _autoincrement_pk t = true → pk_column t = Some pk → _pk_counter t = VInt c →
  (dict_get values_dict pk = VNull →
     _pk_counter (Table.insert t values_dict).1 = VInt (c + 1)
     ∧ ∀ rowid, (Table.insert t values_dict).2 = Ok rowid →
         ∃ row, rows (Table.insert t values_dict).1 !! rowid = Some row
                ∧ dict_get row pk = VInt (c + 1))
  ∧ (∀ n, dict_get values_dict pk = VInt n →
       _pk_counter (Table.insert t values_dict).1 = VInt (Z.max c n)
       ∧ (c ≤ Z.max c n)%Z)
  ∧ (let t1 := (Table.insert users_auto [("name", VStr "Alice")]).1 in
     let t2 := (Table.insert t1 [("name", VStr "Bob")]).1 in
     (λ r, dict_get r "id") <$> rows t2 = [VInt 1; VInt 2])
  ∧ (let t1 := (Table.insert users_auto [("id", VInt 10)]).1 in
     let t2 := (Table.insert t1 []).1 in
     (λ r, dict_get r "id") <$> rows t2 = [VInt 10; VInt 11]).
Proof.
  intros Hauto Hpk Hc. split; [|split; [|split]].
  - intros Hnull.
    pose proof (insert_autoincrement_null t values_dict
                  (Table.new_row t values_dict) pk c Hauto Hpk Hc Hnull) as Hblock.
    split; [by rewrite insert_counter, Hblock|].
    intros rowid Hok.
    apply insert_ok in Hok as (row & c' & -> & Hblock' & _ & _ & ->).
    rewrite Hblock in Hblock'. simplify_eq/=. eexists. split.
    + by apply list_lookup_middle.
    + rewrite dict_get_set. by rewrite decide_True.
  - intros n Hn. split; [|lia].
    rewrite insert_counter.
    by rewrite (insert_autoincrement_int t values_dict _ pk c n).
  - vm_compute. reflexivity.
  - vm_compute. reflexivity.
Qed.

Lemma autoincrement_resolution_witness :
  _pk_counter (@Table.insert decimal_builtins users_auto [("id", VInt 10)]).1 = VInt 10.
Proof.
  exact (proj1 (proj1 (proj2
    (@autoincrement_resolution decimal_builtins users_auto [("id", VInt 10)] "id" 0
       eq_refl eq_refl eq_refl)) 10%Z eq_refl)).
Defined.

(** ** Atomicity of insert *)

(** C2 as stated fails: the insert below raises a unique/PK violation on
    [email] after the autoincrement block has advanced the counter, which
    stays advanced. *)
Lemma insert_raise_keeps_counter_advance :
  let t := (@Table.insert decimal_builtins users_email [("email", VStr "a@x")]).1 in
  let r := @Table.insert decimal_builtins t [("email", VStr "a@x")] in
  r.2 = Raise (ValueError (UniquePKViolation "email" (VStr "a@x")))
  ∧ _pk_counter t = VInt 1
  ∧ _pk_counter r.1 = VInt 2
  ∧ r.1 ≠ t.
Proof.
  split; [by vm_compute|]. split; [by vm_compute|]. split; [by vm_compute|].
  intros Heq. apply (f_equal _pk_counter) in Heq. vm_compute in Heq. discriminate.
Qed.

(** C2, amended. Insert validates before it commits: a call of [insert] that
    raises leaves the rows, every index and all other state of the table as
    they were, except the autoincrement counter, which the call may have
    advanced; with autoincrement off the table is exactly as before. *)
Theorem insert_raise_atomic `{PyBuiltins} (t : Table) (values_dict : Row) (e : PyExc) :
  (Table.insert t values_dict).2 = Raise e →
  (Table.insert t values_dict).1 =
    set_pk_counter t (_pk_counter (Table.insert t values_dict).1)
  ∧ rows (Table.insert t values_dict).1 = rows t
  ∧ indexes (Table.insert t values_dict).1 = indexes t
  ∧ (_autoincrement_pk t = false → (Table.insert t values_dict).1 = t).
Proof.
  intros Hraise. pose proof (insert_raise t values_dict e Hraise) as Hframe.
  split; [done|]. split; [by rewrite Hframe|]. split; [by rewrite Hframe|].
  intros Hoff. rewrite Hframe, insert_counter.
  unfold Table.insert_autoincrement. rewrite Hoff. simpl. apply set_pk_counter_id.
Qed.

Lemma insert_raise_atomic_witness :
  let t := (@Table.insert decimal_builtins users_email [("email", VStr "a@x")]).1 in
  rows (@Table.insert decimal_builtins t [("email", VStr "a@x")]).1 = rows t.
Proof.
  refine (proj1 (proj2 (@insert_raise_atomic decimal_builtins _ _
    (ValueError (UniquePKViolation "email" (VStr "a@x"))) _))).
  vm_compute. reflexivity.
Defined.

(** ** Uniqueness checks of update *)

Section update_unique.
Implicit Types (t : Table) (row : Row) (assignments : Row) (f : Predicate).

(** The check against the index of a unique column, the row's own position
    excluded: it raises exactly when another row holds the value. *)
Lemma check_unique_excluding t col v i :
  table_inv t → col ∈ unique_columns t →
  (Table._check_unique_violation t col v (Some i)
     = Raise (ValueError (UniquePKViolation col v))
   ∧ ∃ j r, j ≠ i ∧ rows t !! j = Some r ∧ py_eq (dict_get r col) v = true)
  ∨ (Table._check_unique_violation t col v (Some i) = Ok ()
     ∧ ∀ j r, j ≠ i → rows t !! j = Some r → py_eq (dict_get r col) v = false).
Proof.
  intros (Hcons & Huniq & _) Hcol. unfold Table._check_unique_violation.
  rewrite bool_decide_eq_true_2 by done.
  destruct (Huniq col Hcol) as [idx Hidx]. rewrite Hidx.
  rewrite (represents_lookup _ _ _ (Hcons col idx Hidx)).
  case_bool_decide as Hm.
  - left. split; [done|].
    apply set_choose_L in Hm as [j [Hj Hne]%elem_of_difference].
    apply elem_of_holders in Hj as (r & Hr & Hk). exists j, r.
    split; [set_solver|]. split; [done|]. by apply py_eq_key_of.
  - right. split; [done|]. intros j r Hne Hr.
    apply py_eq_false_key_of. intros Hk.
    assert (j ∈ holders col (rows t) (key_of v) ∖ {[i]}) as Hj.
    { apply elem_of_difference. split; [|set_solver]. apply elem_of_holders. eauto. }
    rewrite Hm in Hj. by apply elem_of_empty in Hj.
Qed.

(** Rows the predicate rejects are passed over. *)
Lemma update_loop_skip t assignments f (n rowid count : nat) :
  (∀ (j : nat) r, (rowid ≤ j)%nat → rows t !! j = Some r → f r = Ok false) →
  Table.update_loop t assignments (Some f) n rowid count = (t, Ok count).
Proof.
  revert rowid. induction n as [|n IH]; intros rowid Hskip; simpl; [done|].
  destruct (rows t !! rowid) as [row|] eqn:Hrow; [|done].
  rewrite (Hskip rowid row) by done. apply IH. intros j r Hj. apply Hskip. lia.
Qed.

(** An update whose predicate selects the row at position [i] only. *)
Lemma update_single t assignments f i row :
  rows t !! i = Some row →
  (∀ j r, rows t !! j = Some r → f r = Ok (bool_decide (j = i))) →
  Table.update t assignments (Some f) =
    match Table.update_validate t row i assignments with
    | Raise e => (t, Raise e)
    | Ok _ =>
        let '(row', ixs, r) := Table.update_assign i assignments row (indexes t) in
        (set_indexes (set_rows t (<[i := row']> (rows t))) ixs,
         match r with Ok _ => Ok 1 | Raise e => Raise e end)
    end.
Proof.
  intros Hrow Hf. unfold Table.update.
  pose proof (lookup_lt_Some _ _ _ Hrow) as Hlt.
  assert (∀ n rowid : nat, (rowid ≤ i)%nat → (i < rowid + n)%nat →
    Table.update_loop t assignments (Some f) n rowid 0 =
    match Table.update_validate t row i assignments with
    | Raise e => (t, Raise e)
    | Ok _ =>
        let '(row', ixs, r) := Table.update_assign i assignments row (indexes t) in
        (set_indexes (set_rows t (<[i := row']> (rows t))) ixs,
         match r with Ok _ => Ok 1 | Raise e => Raise e end)
    end) as Hloop; [|apply Hloop; lia].
  induction n as [|n IH]; intros rowid Hle Hlt'; [lia|]. simpl.
  destruct (decide (rowid = i)) as [->|Hne].
  - rewrite Hrow. simpl. rewrite (Hf i row Hrow), bool_decide_eq_true_2 by done.
    destruct (Table.update_validate t row i assignments); [|done].
    destruct (Table.update_assign i assignments row (indexes t)) as [[row' ixs] r].
    destruct r; [|done].
    apply update_loop_skip. simpl. intros j r Hj Hr.
    rewrite list_lookup_insert_ne in Hr by lia.
    rewrite (Hf j r Hr). by rewrite bool_decide_eq_false_2 by lia.
  - destruct (lookup_lt_is_Some_2 (rows t) rowid) as [r Hr]; [lia|].
    rewrite Hr. simpl. rewrite (Hf rowid r Hr), bool_decide_eq_false_2 by done.
    apply IH; lia.
Qed.

(** The checks of a row fail when one of the assignments gives a unique
    column a value that another row holds and the row itself does not. *)
Lemma update_validate_violation t row i assignments col v :
  table_inv t → (col, v) ∈ assignments → col ∈ unique_columns t →
  py_eq v (dict_get row col) = false →
  (∃ j r, j ≠ i ∧ rows t !! j = Some r ∧ py_eq (dict_get r col) v = true) →
  ∃ c' v', Table.update_validate t row i assignments
             = Raise (ValueError (UniquePKViolation c' v')).
Proof.
  intros Hinv Hin Hcol Hdiff Hheld.
  destruct (Table.update_validate t row i assignments) as [[]|e] eqn:Hv.
  - exfalso. induction assignments as [|[c0 v0] rest IH]; [by apply elem_of_nil in Hin|].
    simpl in Hv. apply elem_of_cons in Hin as [[= <- <-]|Hin].
    + rewrite bool_decide_eq_true_2, Hdiff in Hv by done. simpl in Hv.
      destruct (check_unique_excluding t col v i Hinv Hcol) as [[Hc _]|[_ Hfree]];
        [by rewrite Hc in Hv|].
      destruct Hheld as (j & r & Hne & Hr & Heq). by rewrite (Hfree j r) in Heq.
    + apply IH; [done|].
      destruct (if _ && _ then _ else _); [done|discriminate].
  - apply update_validate_raise in Hv as (c' & v' & _ & ->); [eauto|apply Hinv].
Qed.

End update_unique.

(** ** Uniqueness of the rows *)

Section unique_rows.
Implicit Types (t : Table) (row : Row) (assignments : Row).

Lemma NoDup_insert_key (ks : list Key) i k k' :
  NoDup ks → ks !! i = Some k →
  (k' = k ∨ ∀ j, j ≠ i → ks !! j ≠ Some k') →
  NoDup (<[i := k']> ks).
Proof.
  intros Hnd Hi [->|Hfree]; [by rewrite list_insert_id|].
  apply NoDup_alt. intros a b x. rewrite !list_lookup_insert.
  pose proof (lookup_lt_Some _ _ _ Hi) as Hlt.
  repeat case_decide; intros Ha Hb; simplify_eq; try lia.
  - destruct (decide (b = i)) as [->|Hne]; [lia|]. by destruct (Hfree b Hne).
  - destruct (decide (a = i)) as [->|Hne]; [lia|]. by destruct (Hfree a Hne).
  - by eapply NoDup_lookup.
Qed.

(** After the assignment loop a column holds its old value or one of the
    values assigned to it. *)
Lemma update_assign_get i assignments row ixs col :
  let row' := (Table.update_assign i assignments row ixs).1.1 in
  dict_get row' col = dict_get row col
  ∨ ∃ v, (col, v) ∈ assignments ∧ dict_get row' col = v.
Proof.
  revert row ixs. induction assignments as [|[c0 v0] rest IH]; intros row ixs; simpl;
    [by left|].
  destruct (dict_lookup row c0) as [old|]; simpl; [|by left].
  edestruct IH as [Heq|(v & Hin & Heq)].
  - rewrite Heq, dict_get_set. case_decide as Hc; [|by left].
    right. exists v0. subst c0. split; [by left|done].
  - right. exists v. split; [by right|done].
Qed.

Lemma update_validate_ok t row i assignments col v :
  Table.update_validate t row i assignments = Ok () →
  (col, v) ∈ assignments → col ∈ unique_columns t →
  py_eq v (dict_get row col) = true
  ∨ Table._check_unique_violation t col v (Some i) = Ok ().
Proof.
  induction assignments as [|[c0 v0] rest IH]; simpl; intros Hv Hin Hcol;
    [by apply elem_of_nil in Hin|].
  apply elem_of_cons in Hin as [[= <- <-]|Hin].
  - rewrite bool_decide_eq_true_2 in Hv by done. simpl in Hv.
    destruct (py_eq v (dict_get row col)); [by left|]. simpl in Hv. right.
    by destruct (Table._check_unique_violation t col v (Some i)) as [[]|].
  - apply IH; [|done..].
    destruct (if _ && _ then _ else _) as [[]|]; [done|discriminate].
Qed.

(** One row of [update] keeps the unique columns free of duplicates. *)
Lemma update_row_unique t rowid row assignments row' ixs' r :
  table_inv t → unique_rows t → rows t !! rowid = Some row →
  Table.update_validate t row rowid assignments = Ok () →
  Table.update_assign rowid assignments row (indexes t) = (row', ixs', r) →
  unique_rows (set_indexes (set_rows t (<[rowid := row']> (rows t))) ixs').
Proof.
  intros Hinv Huniq Hrow Hv Hassign col Hcol. simpl in *.
  rewrite list_fmap_insert.
  apply (NoDup_insert_key _ _ (key_of (dict_get row col))); [by apply Huniq|..].
  { by rewrite list_lookup_fmap, Hrow. }
  pose proof (update_assign_get rowid assignments row (indexes t) col) as Hget.
  rewrite Hassign in Hget. simpl in Hget.
  destruct Hget as [->|(v & Hin & ->)]; [by left|].
  destruct (update_validate_ok _ _ _ _ _ _ Hv Hin Hcol) as [Heq|Hcheck].
  - left. by apply py_eq_key_of.
  - right. intros j Hne. rewrite list_lookup_fmap.
    destruct (rows t !! j) as [r0|] eqn:Hr0; [|done]. simpl. intros [= Hk].
    destruct (check_unique_excluding t col v rowid Hinv Hcol) as [[Hc _]|[_ Hfree]];
      [congruence|].
    apply py_eq_key_of in Hk. by rewrite (Hfree j r0) in Hk.
Qed.

Lemma update_loop_unique t assignments where_fn n rowid count :
  table_inv t → unique_rows t →
  unique_rows (Table.update_loop t assignments where_fn n rowid count).1.
Proof.
  revert t rowid count. induction n as [|n IH]; intros t rowid count Hinv Huniq;
    simpl; [done|].
  destruct (rows t !! rowid) as [row|] eqn:Hrow; [|done].
  destruct (where_matches where_fn row) as [[|]|]; [|by apply IH|done].
  destruct (Table.update_validate t row rowid assignments) as [[]|] eqn:Hv; [|done].
  destruct (Table.update_assign rowid assignments row (indexes t))
    as [[row' ixs'] r] eqn:Hassign.
  pose proof (update_row_inv _ _ _ _ _ _ _ Hinv Hrow Hassign) as Hinv'.
  pose proof (update_row_unique _ _ _ _ _ _ _ Hinv Huniq Hrow Hv Hassign) as Huniq'.
  destruct r; [by apply IH|done].
Qed.

(** The unique checks of [insert] passed: no row holds the new values. *)
Lemma insert_check_unique_ok t row cols col :
  table_inv t → Table.insert_check_unique t row cols = Ok () →
  col ∈ cols → col ∈ unique_columns t →
  ∀ r, r ∈ rows t → key_of (dict_get r col) ≠ key_of (dict_get row col).
Proof.
  intros (Hcons & Huniq & _) Hchk Hin Hcol r [j Hj]%list_elem_of_lookup_1 Hk.
  induction cols as [|c0 cols IH]; [by apply elem_of_nil in Hin|]. simpl in Hchk.
  destruct (Table._check_unique_violation t c0 (dict_get row c0) None) as [[]|] eqn:Hc;
    [|done].
  apply elem_of_cons in Hin as [->|Hin]; [|by apply IH].
  unfold Table._check_unique_violation in Hc.
  rewrite bool_decide_eq_true_2 in Hc by done.
  destruct (Huniq c0 Hcol) as [idx Hidx]. rewrite Hidx in Hc.
  rewrite (represents_lookup _ _ _ (Hcons c0 idx Hidx)) in Hc.
  case_bool_decide as Hm; [done|].
  assert (j ∈ holders c0 (rows t) (key_of (dict_get row c0))) as Hjin
    by (apply elem_of_holders; eauto).
  rewrite Hm in Hjin. by apply elem_of_empty in Hjin.
Qed.

Lemma insert_unique `{PyBuiltins} t values_dict :
  table_inv t → unique_rows t → unique_rows (Table.insert t values_dict).1.
Proof.
  intros Hinv Huniq.
  destruct (Table.insert t values_dict).2 as [rowid|e] eqn:Hr.
  - apply insert_ok in Hr as (row & c & -> & _ & _ & Hu & ->).
    intros col Hcol. simpl in *. rewrite fmap_app. apply list.NoDup_app.
    split; [by apply Huniq|]. split; [|apply NoDup_singleton].
    intros k (r & Hk & Hr)%list_elem_of_fmap Hrow. simpl in Hrow.
    apply list_elem_of_singleton in Hrow. subst k.
    eapply (insert_check_unique_ok t row _ col); [done|done| |done|done|done].
    by apply elem_of_elements.
  - apply insert_raise in Hr as ->. by destruct t.
Qed.

Lemma delete_unique t where_fn :
  unique_rows t → unique_rows (Table.delete t where_fn).1.
Proof.
  intros Huniq. unfold Table.delete. destruct where_fn as [f|].
  - destruct (Table.delete_scan f (rows t)) as [[new_rows count]|] eqn:Hscan; [|done].
    apply delete_scan_ok in Hscan as (_ & -> & _).
    intros col Hcol. simpl in *.
    eapply sublist_NoDup; [by apply Huniq|]. apply fmap_sublist, sublist_filter.
  - intros col Hcol. simpl. apply NoDup_nil_2.
Qed.

Lemma reachable_unique `{PyBuiltins} t : reachable t → unique_rows t.
Proof.
  induction 1 as [t Hconf|t values_dict Hr IH|t assignments where_fn Hr IH|t where_fn Hr IH].
  - intros col _. destruct (configured_inv t Hconf) as [-> _]. apply NoDup_nil_2.
  - apply insert_unique; [by apply reachable_inv|done].
  - apply update_loop_unique; [by apply reachable_inv|done].
  - by apply delete_unique.
Qed.

End unique_rows.

(** C4. The uniqueness check of update excludes the row itself.  In a
    reachable table with a unique column [col], for an update whose predicate
    selects the row at position [i]: assigning to [col] a value held by a
    different row raises a unique/PK violation and changes nothing;
    assigning the value the row already holds succeeds, the check being
    skipped; and the check made with position [i] excluded raises exactly
    when a row at another position holds the value.  Whatever its arguments,
    an update leaves no two rows with the same value in a unique column. *)
Theorem update_unique_excludes_self `{PyBuiltins} (t : Table) (col : string)
    (i : nat) (row : Row) (f : Predicate) (v : DataValue) :
  reachable t → col ∈ unique_columns t → rows t !! i = Some row →
  (∀ j r, rows t !! j = Some r → f r = Ok (bool_decide (j = i))) →
  (∀ assignments j r,
     (col, v) ∈ assignments → j ≠ i → rows t !! j = Some r →
     py_eq (dict_get r col) v = true →
     ∃ c' v', (c', v') ∈ assignments
       ∧ Table.update t assignments (Some f)
           = (t, Raise (ValueError (UniquePKViolation c' v'))))
  ∧ (py_eq v (dict_get row col) = true →
     Table.update_validate t row i [(col, v)] = Ok ()
     ∧ ∃ t', Table.update t [(col, v)] (Some f) = (t', Ok 1)
             ∧ rows t' = <[i := dict_set row col v]> (rows t))
  ∧ (Table._check_unique_violation t col v (Some i)
       = Raise (ValueError (UniquePKViolation col v))
     ↔ ∃ j r, j ≠ i ∧ rows t !! j = Some r ∧ py_eq (dict_get r col) v = true)
  ∧ (∀ assignments where_fn,
       unique_rows (Table.update t assignments where_fn).1).
Proof.
  intros Hreach Hcol Hrow Hf.
  pose proof (reachable_inv t Hreach) as Hinv.
  pose proof (reachable_unique t Hreach col Hcol) as Hnodup.
  split; [|split; [|split]];
    [| | |intros assignments where_fn;
          by apply (update_loop_unique t), reachable_unique].
  - intros assignments j r Hin Hne Hr Hheld.
    assert (py_eq v (dict_get row col) = false) as Hdiff.
    { apply py_eq_false_key_of. intros Hk. apply Hne.
      apply (NoDup_lookup _ j i (key_of v) Hnodup); rewrite list_lookup_fmap.
      - rewrite Hr. simpl. f_equal. by apply py_eq_key_of.
      - rewrite Hrow. simpl. by f_equal. }
    destruct (update_validate_violation t row i assignments col v)
      as (c' & v' & Hv); [done..|by eauto|].
    pose proof Hv as (c'' & v'' & Hin' & [= <- <-])%update_validate_raise;
      [|apply Hinv].
    exists c', v'. split; [done|].
    by rewrite (update_single t assignments f i row Hrow Hf), Hv.
  - intros Hsame.
    assert (Table.update_validate t row i [(col, v)] = Ok ()) as Hv.
    { simpl. by rewrite Hsame, andb_false_r. }
    split; [done|].
    rewrite (update_single t [(col, v)] f i row Hrow Hf), Hv. simpl.
    destruct Hinv as (_ & Huniq & [Hrc Hix] & _).
    destruct (Hrc row col) as [old ->].
    { by eapply list_elem_of_lookup_2. }
    { by apply Hix, Huniq. }
    eexists. split; reflexivity.
  - destruct (check_unique_excluding t col v i Hinv Hcol) as [[-> Hheld]|[-> Hfree]].
    + done.
    + split; [done|]. intros (j & r & Hne & Hr & Heq). by rewrite (Hfree j r) in Heq.
Qed.

(** ** delete *)

(** C6. Delete contract.  Without a predicate [delete] removes all rows,
    clears every index, resets the autoincrement counter to 0 and returns the
    prior row count.  With a predicate (that raises on no row) it keeps
    exactly the rows the predicate rejects, in their order, rebuilds every
    index over the new positions, leaves the counter as it was and returns
    the number of rows removed. *)
Theorem delete_contract (t : Table) :
  (∃ t', Table.delete t None = (t', Ok (length (rows t)))
     ∧ rows t' = []
     ∧ (∀ col, indexes t' !! col = (λ _, HashIndex.empty) <$> indexes t !! col)
     ∧ _pk_counter t' = VInt 0)
  ∧ ∀ f : Predicate,
      Forall (λ r, ∃ b, f r = Ok b) (rows t) →
      ∃ t', Table.delete t (Some f)
              = (t', Ok (length (filter (λ r, f r = Ok true) (rows t))))
        ∧ rows t' = filter (λ r, f r = Ok false) (rows t)
        ∧ (∀ col, indexes t' !! col
                  = (λ _, scan_from col 0 (rows t') HashIndex.empty) <$> indexes t !! col)
        ∧ indexes_consistent t'
        ∧ _pk_counter t' = _pk_counter t.
Proof.
  split.
  - eexists. split; [reflexivity|]. simpl. split; [done|]. split; [|done].
    intros col. by rewrite lookup_fmap.
  - intros f Htotal. unfold Table.delete. rewrite (delete_scan_total f _ Htotal).
    eexists. split; [reflexivity|]. split; [done|]. split; [|split; [|done]].
    + intros col. apply (rebuild_indexes_lookup (set_rows t _)).
    + apply rebuild_indexes_consistent.
Qed.

Lemma delete_contract_witness :
  let t := (@Table.insert decimal_builtins users_auto [("name", VStr "Alice")]).1 in
  ∃ t', Table.delete t (Some (λ r, Ok (py_eq (dict_get r "id") (VInt 1))))
          = (t', Ok 1)
        ∧ rows t' = [].
Proof.
  intros t.
  destruct (proj2 (delete_contract t) (λ r, Ok (py_eq (dict_get r "id") (VInt 1))))
    as (t' & Hdel & Hrows & _).
  - apply Forall_forall. intros r _. eauto.
  - exists t'. split; [exact Hdel | exact Hrows].
Defined.

Lemma update_unique_excludes_self_witness :
  ∃ c' v', (c', v') ∈ [("email", VStr "a@x")]
    ∧ Table.update two_users [("email", VStr "a@x")]
        (Some (λ r, Ok (py_eq (dict_get r "id") (VInt 2))))
      = (two_users, Raise (ValueError (UniquePKViolation c' v'))).
Proof.
  assert (@reachable decimal_builtins two_users) as Hreach.
  { unfold two_users. do 2 apply reachable_insert. apply reachable_configured.
    unfold users_email. apply configured_unique, configured_primary_key, configured_init. }
  assert ("email" ∈ unique_columns two_users) as Hcol.
  { apply (bool_decide_unpack _). vm_compute. exact I. }
  refine (proj1 (@update_unique_excludes_self decimal_builtins two_users "email" 1
            [("id", VInt 2); ("email", VStr "b@x")]
            (λ r, Ok (py_eq (dict_get r "id") (VInt 2))) (VStr "a@x")
            Hreach Hcol _ _)
          [("email", VStr "a@x")] 0 [("id", VInt 1); ("email", VStr "a@x")] _ _ _ _).
  - vm_compute. reflexivity.
  - intros [|[|j]] r; vm_compute; intros Hr; inversion Hr; reflexivity.
  - apply list_elem_of_singleton. reflexivity.
  - discriminate.
  - vm_compute. reflexivity.
  - vm_compute. reflexivity.
Defined.

(** ** The literal converter *)

(** C8 as stated fails: for a bare column reference the converter returns
    Python's [None], which is the null data value itself, not a marker
    distinct from it. *)
Lemma parse_literal_no_literal_is_null :
  @parse_literal decimal_builtins (exp.Column "" "column_name") = Ok VNull
  ∧ @parse_literal decimal_builtins exp.Null = Ok VNull.
Proof. split; reflexivity. Qed.

(** C8, amended. Applied to a literal node the converter returns a text
    value for a string literal, an integer for a number literal that reads as
    an integer and a floating-point number for any other number literal;
    applied to a node that is not a literal it returns the null data value. *)
Theorem parse_literal_contract `{PyBuiltins} :
  (∀ this, parse_literal (exp.Literal this true) = Ok (VStr this))
  ∧ (∀ this n, int_of_str this = Some n →
       parse_literal (exp.Literal this false) = Ok (VInt n))
  ∧ (∀ this x, int_of_str this = None → float_of_str this = Some x →
       parse_literal (exp.Literal this false) = Ok (VFloat x))
  ∧ (∀ e, (∀ this is_string, e ≠ exp.Literal this is_string) →
       parse_literal e = Ok VNull).
Proof.
  split; [|split; [|split]].
  - done.
  - intros this n Hn. unfold parse_literal, exp.is_int. by rewrite Hn.
  - intros this x Hn Hx. unfold parse_literal, exp.is_int. by rewrite Hn, Hx.
  - intros e Hne. destruct e; try done. by destruct (Hne this is_string).
Qed.

Lemma parse_literal_contract_witness :
  @parse_literal decimal_builtins (exp.Literal "42" false) = Ok (VInt 42)
  ∧ @parse_literal decimal_builtins (exp.Literal "3.5" false) = Ok (VFloat (Q2Qc (35 # 10)))
  ∧ @parse_literal decimal_builtins exp.Star = Ok VNull.
Proof.
  pose proof (@parse_literal_contract decimal_builtins) as (_ & Hint & Hfloat & Hother).
  split; [|split].
  - apply Hint. reflexivity.
  - apply Hfloat; reflexivity.
  - apply Hother. discriminate.
Defined.

(** ** The predicate and join resolver *)

(** C9 as stated fails: an AND of two join conditions does not raise; the
    resolver returns the first join descriptor with an empty filter list. *)
Lemma build_predicate_two_joins_returns :
  @build_predicate decimal_builtins
    (exp.And join_condition
       (exp.EQ (exp.Column "users" "name") (exp.Column "orders" "oid")))
    (Some (tables join_db))
  = Ok (PairTuple (JoinTuple "users" "id" "orders" "user_id") []).
Proof. vm_compute. reflexivity. Qed.

(** C9, amended. For every AND whose two sides each resolve to a join
    descriptor (a tuple), the resolver does not raise: it returns the pair of
    the left side's descriptor and an empty list of filters, and the right
    side's descriptor is dropped. *)
Theorem build_predicate_two_joins `{PyBuiltins} (lhs rhs : exp.Expression)
    (table_map : option (gmap string Table)) (p1 p2 : Pred) :
  build_predicate lhs table_map = Ok p1 →
  build_predicate rhs table_map = Ok p2 →
  is_tuple p1 = true → is_tuple p2 = true →
  build_predicate (exp.And lhs rhs) table_map = Ok (PairTuple p1 []).
Proof.
  intros H1 H2 Ht1 Ht2. simpl. rewrite H1, H2. simpl.
  rewrite !filter_cons, decide_True by done.
  destruct p1, p2; done.
Qed.

Lemma build_predicate_two_joins_witness :
  @build_predicate decimal_builtins
    (exp.And join_condition join_condition) (Some (tables join_db))
  = Ok (PairTuple (JoinTuple "users" "id" "orders" "user_id") []).
Proof.
  apply (@build_predicate_two_joins decimal_builtins join_condition join_condition
           (Some (tables join_db)) (JoinTuple "users" "id" "orders" "user_id")
           (JoinTuple "users" "id" "orders" "user_id")).
  - vm_compute. reflexivity.
  - vm_compute. reflexivity.
  - reflexivity.
  - reflexivity.
Defined.

(** ** The join of two tables *)

Section join.

Lemma join_inner_spec t1 c1 t2 c2 (r1 : Row) (rows2 : list Row) :
  join_inner t1 c1 t2 c2 r1 rows2 =
    combined t1 t2 r1 <$>
      filter (λ r2, py_eq (dict_get r2 c2) (dict_get r1 c1) = true) rows2.
Proof.
  induction rows2 as [|r2 rows2 IH]; simpl; [done|].
  rewrite filter_cons. destruct (py_eq (dict_get r2 c2) (dict_get r1 c1)) eqn:Heq.
  - rewrite decide_True by done. simpl. by rewrite IH.
  - rewrite decide_False by done. done.
Qed.

(** Without a residual filter the loops emit, for each left row in order,
    the right rows that match it, in order. *)
Lemma join_outer_spec t1 c1 t2 c2 (rows1 rows2 : list Row) :
  join_outer None t1 c1 t2 c2 rows1 rows2 =
    Ok (r1 ← rows1;
        combined t1 t2 r1 <$>
          filter (λ r2, py_eq (dict_get r2 c2) (dict_get r1 c1) = true) rows2).
Proof.
  induction rows1 as [|r1 rows1 IH]; simpl; [done|].
  rewrite IH. simpl. by rewrite join_inner_spec.
Qed.

End join.

Section execute_join.
Context `{PyBuiltins}.

Lemma make_table_map_two db (a b : string) (ta tb : Table) :
  tables db !! a = Some ta → tables db !! b = Some tb →
  make_table_map db [a; b] ∅ = Ok (<[b := tb]> (<[a := ta]> ∅)).
Proof.
  intros Ha Hb. simpl. unfold MiniDB.get_table. by rewrite Ha, Hb.
Qed.

(** The condition [t1.c1 = t2.c2] over the two tables of the statement
    resolves to a join descriptor. *)
Lemma join_condition_resolves (m : gmap string Table) t1 c1 t2 c2 :
  t1 ≠ t2 → is_Some (m !! t1) → is_Some (m !! t2) →
  build_predicate (exp.EQ (exp.Column t1 c1) (exp.Column t2 c2)) (Some m)
    = Ok (JoinTuple t1 c1 t2 c2).
Proof.
  intros Hne H1 H2. simpl.
  assert (m ≠ ∅) as Hm.
  { intros ->. destruct H1 as [? H1]. by rewrite lookup_empty in H1. }
  rewrite (bool_decide_eq_true_2 (m ≠ ∅)), (bool_decide_eq_false_2 (t1 = t2)),
    (bool_decide_eq_true_2 (is_Some (m !! t1))),
    (bool_decide_eq_true_2 (is_Some (m !! t2))) by done.
  done.
Qed.

(** A SELECT over two tables whose condition is a single equality between
    their columns: the nested-loop join, left rows outermost. *)
Lemma execute_select_join ast db (a b t1 c1 t2 c2 : string) (tbl1 tbl2 : Table) :
  sel_tables ast = [a; b] →
  sel_where ast = Some (exp.EQ (exp.Column t1 c1) (exp.Column t2 c2)) →
  t1 ≠ t2 → t1 ∈ [a; b] → t2 ∈ [a; b] →
  tables db !! t1 = Some tbl1 → tables db !! t2 = Some tbl2 →
  execute_select ast db =
    Ok (RowList
          (r1 ← rows tbl1;
           combined t1 t2 r1 <$>
             filter (λ r2, py_eq (dict_get r2 c2) (dict_get r1 c1) = true)
               (rows tbl2))).
Proof.
  intros Htabs Hwhere Hne Hin1 Hin2 Ht1 Ht2.
  assert (∃ ta tb, tables db !! a = Some ta ∧ tables db !! b = Some tb
            ∧ <[b := tb]> (<[a := ta]> (∅ : gmap string Table)) !! t1 = Some tbl1
            ∧ <[b := tb]> (<[a := ta]> (∅ : gmap string Table)) !! t2 = Some tbl2)
    as (ta & tb & Ha & Hb & Hm1 & Hm2).
  { apply elem_of_cons in Hin1 as [->|Hin1%list_elem_of_singleton];
      apply elem_of_cons in Hin2 as [->|Hin2%list_elem_of_singleton];
      simplify_eq; try done.
    - exists tbl1, tbl2. repeat split; [done..| |].
      + by rewrite lookup_insert_ne, lookup_insert_eq by done.
      + by rewrite lookup_insert_eq.
    - exists tbl2, tbl1. repeat split; [done..| |].
      + by rewrite lookup_insert_eq.
      + by rewrite lookup_insert_ne, lookup_insert_eq by done. }
  unfold execute_select. rewrite Htabs, Hwhere.
  rewrite (make_table_map_two db a b ta tb Ha Hb). cbn [mbind pyresult_bind].
  rewrite join_condition_resolves by (done || by eexists).
  cbn [mbind pyresult_bind split_pred unpack4]. rewrite Hm1, Hm2.
  by rewrite join_outer_spec.
Qed.

(** The same SELECT with a further condition under AND: the pair the
    resolver returns carries the 5-tuple [("JOIN", t1, c1, t2, c2)] as its
    first component, and unpacking it into four names raises. *)
Lemma execute_select_join_filter ast db (a b t1 c1 t2 c2 : string)
    (rhs : exp.Expression) (f : Predicate) (ta tb : Table) :
  sel_tables ast = [a; b] →
  sel_where ast = Some (exp.And (exp.EQ (exp.Column t1 c1) (exp.Column t2 c2)) rhs) →
  t1 ≠ t2 → t1 ∈ [a; b] → t2 ∈ [a; b] →
  tables db !! a = Some ta → tables db !! b = Some tb →
  build_predicate rhs (Some (<[b := tb]> (<[a := ta]> ∅))) = Ok (Lambda f) →
  execute_select ast db = Raise (ValueError (WrongUnpackArity 4 5)).
Proof.
  intros Htabs Hwhere Hne Hin1 Hin2 Ha Hb Hrhs.
  unfold execute_select. rewrite Htabs, Hwhere.
  rewrite (make_table_map_two db a b ta tb Ha Hb). cbn [mbind pyresult_bind].
  change (build_predicate (exp.And ?l ?r) ?m) with
    (p1 ← build_predicate l m; p2 ← build_predicate r m;
     match filter (λ p, is_tuple p = true) [p1; p2] with
     | j :: _ => Ok (PairTuple j (callables [p1; p2]))
     | [] => Ok (Lambda (py_all (callables [p1; p2])))
     end).
  rewrite join_condition_resolves, Hrhs; [done|done|..].
  - apply elem_of_cons in Hin1 as [->|Hin1%list_elem_of_singleton]; simplify_eq.
    + destruct (decide (a = b)) as [->|]; [by rewrite lookup_insert_eq|].
      by rewrite lookup_insert_ne, lookup_insert_eq.
    + by rewrite lookup_insert_eq.
  - apply elem_of_cons in Hin2 as [->|Hin2%list_elem_of_singleton]; simplify_eq.
    + destruct (decide (a = b)) as [->|]; [by rewrite lookup_insert_eq|].
      by rewrite lookup_insert_ne, lookup_insert_eq.
    + by rewrite lookup_insert_eq.
Qed.

End execute_join.

(** C7. The join of two tables.  A SELECT over [users] and [orders] whose
    condition is [users.id = orders.user_id] returns the one combined row,
    with keys qualified by table.  With a residual filter under AND
    ([... AND users.name = 'A']) the executor raises [ValueError] instead of
    joining the left rows that pass the filter: the join descriptor it
    unpacks still carries the ["JOIN"] tag. *)
Theorem join_with_filter_raises :
  @execute_select decimal_builtins join_query join_db
    = Ok (RowList [[("users.id", VInt 1); ("users.name", VStr "A");
                    ("orders.oid", VInt 1); ("orders.user_id", VInt 1)]])
  ∧ @execute_select decimal_builtins join_filter_query join_db
    = Raise (ValueError (WrongUnpackArity 4 5)).
Proof. split; vm_compute; reflexivity. Qed.

(** ** What update does not check *)

Section validation.
Implicit Types (t : Table) (row : Row).

(** A row that passed the checks of [insert] obeys the declarations. *)
Lemma insert_validate_spec t row k v :
  Table.insert_validate t row = Ok () → (k, v) ∈ row →
  ∃ c, columns t !! k = Some c
    ∧ (v = VNull → nullable c = true)
    ∧ (v ≠ VNull → isinstance v (dtype c) = true
                    ∧ ¬ (dtype c = Tint ∧ isinstance v Tbool = true)).
Proof.
  induction row as [|[k0 v0] row IH]; simpl; intros Hv Hin;
    [by apply elem_of_nil in Hin|].
  destruct (columns t !! k0) as [c|] eqn:Hc; [|done].
  assert (Table.insert_validate t row = Ok ()
          ∧ (v0 = VNull → nullable c = true)
          ∧ (v0 ≠ VNull → isinstance v0 (dtype c) = true
                           ∧ ¬ (dtype c = Tint ∧ isinstance v0 Tbool = true)))
    as (Hrest & Hnull & Hty).
  { destruct (decide (v0 = VNull)) as [->|Hnn].
    - destruct (nullable c); [|done]. by repeat split.
    - assert ((if bool_decide (dtype c = Tint) && isinstance v0 Tbool
               then Raise (TypeError (TypeMismatchFor k0 Tint))
               else if negb (isinstance v0 (dtype c))
               then Raise (TypeError (TypeMismatchFor k0 (dtype c)))
               else Table.insert_validate t row) = Ok ()) as Hv'
        by (by destruct v0).
      destruct (bool_decide (dtype c = Tint) && isinstance v0 Tbool) eqn:Hb; [done|].
      destruct (isinstance v0 (dtype c)) eqn:Hi; [|done]. simpl in Hv'.
      split; [done|]. split; [done|]. intros _. split; [done|].
      intros [Hd Hbool]. by rewrite bool_decide_eq_true_2, Hbool in Hb. }
  apply elem_of_cons in Hin as [[= -> ->]|Hin]; [by exists c|by apply IH].
Qed.

End validation.

(** C10. Update performs no not-null or type validation.  In a reachable
    table an update that assigns declared columns raises nothing but a
    unique/PK violation (or what its predicate raises); on a column that is
    not unique it stores whatever value it is given, null or of any type; a
    row that insert accepts obeys nullability and the declared types.  On
    the table [strict(id int not null, age int not null)] update stores null
    and [True] in [age], which insert rejects. *)
Theorem update_skips_validation `{PyBuiltins} (t : Table) :
  reachable t →
  (∀ assignments where_fn e,
     (∀ c, c ∈ assignments.*1 → c ∈ column_order t) →
     (Table.update t assignments where_fn).2 = Raise e →
     (∃ c v, (c, v) ∈ assignments ∧ e = ValueError (UniquePKViolation c v))
     ∨ (∃ f r, where_fn = Some f ∧ f r = Raise e))
  ∧ (∀ col v i row (f : Predicate),
       col ∈ column_order t → col ∉ unique_columns t → rows t !! i = Some row →
       (∀ j r, rows t !! j = Some r → f r = Ok (bool_decide (j = i))) →
       ∃ t', Table.update t [(col, v)] (Some f) = (t', Ok 1)
             ∧ rows t' = <[i := dict_set row col v]> (rows t))
  ∧ (∀ values_dict rowid,
       (Table.insert t values_dict).2 = Ok rowid →
       ∃ row, rows (Table.insert t values_dict).1 !! rowid = Some row
         ∧ ∀ k v, (k, v) ∈ row →
             ∃ c, columns t !! k = Some c
               ∧ (v = VNull → nullable c = true)
               ∧ (v ≠ VNull → isinstance v (dtype c) = true
                               ∧ ¬ (dtype c = Tint ∧ isinstance v Tbool = true)))
  ∧ (Table.update strict_table [("age", VNull)] None).2 = Ok 1
  ∧ rows (Table.update strict_table [("age", VNull)] None).1
      = [[("id", VInt 1); ("age", VNull)]]
  ∧ (Table.update strict_table [("age", VBool true)] None).2 = Ok 1
  ∧ rows (Table.update strict_table [("age", VBool true)] None).1
      = [[("id", VInt 1); ("age", VBool true)]]
  ∧ (Table.insert strict_table [("id", VInt 2); ("age", VNull)]).2
      = Raise (ValueError (NotNullMissing "age"))
  ∧ (Table.insert strict_table [("id", VInt 2); ("age", VBool true)]).2
      = Raise (TypeError (TypeMismatchFor "age" Tint)).
Proof.
  intros Hreach. pose proof (reachable_inv t Hreach) as Hinv.
  split; [|split; [|split]].
  - intros assignments where_fn e Hdecl. by apply update_loop_raise.
  - intros col v i row f Hcol Hnot Hrow Hf.
    rewrite (update_single t [(col, v)] f i row Hrow Hf). simpl.
    rewrite bool_decide_eq_false_2 by done. simpl.
    destruct Hinv as (_ & _ & [Hrc _] & _).
    destruct (Hrc row col) as [old ->]; [by eapply list_elem_of_lookup_2|done|].
    eexists. split; reflexivity.
  - intros values_dict rowid Hok.
    apply insert_ok in Hok as (row & c & -> & _ & Hv & _ & ->).
    exists row. split; [by apply list_lookup_middle|].
    intros k v Hin. by eapply insert_validate_spec.
  - repeat split; vm_compute; reflexivity.
Qed.

Lemma update_skips_validation_witness :
  ∃ t', Table.update strict_table [("age", VStr "old")]
          (Some (λ r, Ok (py_eq (dict_get r "id") (VInt 1)))) = (t', Ok 1)
        ∧ rows t' = [[("id", VInt 1); ("age", VStr "old")]].
Proof.
  assert (@reachable decimal_builtins strict_table) as Hreach.
  { unfold strict_table. apply reachable_insert, reachable_configured, configured_init. }
  refine (proj1 (proj2 (@update_skips_validation decimal_builtins strict_table Hreach))
            "age" (VStr "old") 0 [("id", VInt 1); ("age", VInt 30)]
            (λ r, Ok (py_eq (dict_get r "id") (VInt 1))) _ _ _ _).
  - apply (bool_decide_unpack _). vm_compute. exact I.
  - apply (bool_decide_unpack _). vm_compute. exact I.
  - vm_compute. reflexivity.
  - intros [|j] r; vm_compute; intros Hr; inversion Hr; reflexivity.
Defined.

(** ** Sorting *)

(** [<] on numbers and on strings. *)
Section order.

Lemma string_compare_OT s1 s2 : String.compare s1 s2 = String_as_OT.compare s1 s2.
Proof. revert s2. induction s1 as [|a s1 IH]; intros [|b s2]; simpl; done. Qed.

Lemma string_ltb_lt s1 s2 : String.ltb s1 s2 = true ↔ String_as_OT.lt s1 s2.
Proof.
  unfold String.ltb, String_as_OT.lt. rewrite string_compare_OT.
  by destruct (String_as_OT.compare s1 s2).
Qed.

Lemma string_ltb_asym s1 s2 : String.ltb s1 s2 = true → String.ltb s2 s1 = false.
Proof.
  intros H12%string_ltb_lt. apply not_true_is_false. intros H21%string_ltb_lt.
  apply (irreflexivity String_as_OT.lt s1). by etrans.
Qed.

Lemma string_ltb_negtrans s1 s2 s3 :
  String.ltb s3 s2 = false → String.ltb s2 s1 = false → String.ltb s3 s1 = false.
Proof.
  intros H32 H21. apply not_true_is_false. intros H31%string_ltb_lt.
  destruct (String_as_OT.compare_spec s2 s1) as [->|Hlt|Hgt].
  - apply string_ltb_lt in H31. congruence.
  - apply string_ltb_lt in Hlt. congruence.
  - assert (String_as_OT.lt s3 s2) as Hlt by by etrans.
    apply string_ltb_lt in Hlt. congruence.
Qed.

Lemma py_lt_total P a b :
  (P = numeric ∨ P = textual) → P a → P b → ∃ c, py_lt a b = Ok c.
Proof.
  unfold py_lt. intros [->| ->].
  - intros [x ->] [y ->]. eauto.
  - intros [s ->] [s' ->]. simpl. eauto.
Qed.

Lemma py_lt_asym P a b :
  (P = numeric ∨ P = textual) → P a → P b →
  py_lt a b = Ok true → py_lt b a = Ok false.
Proof.
  unfold py_lt. intros [->| ->].
  - intros [x ->] [y ->] [= Hlt%bool_decide_eq_true]. f_equal.
    apply bool_decide_eq_false. by apply Qcle_not_lt, Qclt_le_weak.
  - intros [s ->] [s' ->]. simpl. intros [= Hlt]. f_equal. by apply string_ltb_asym.
Qed.

Lemma py_lt_negtrans P a b c :
  (P = numeric ∨ P = textual) → P a → P b → P c →
  py_lt c b = Ok false → py_lt b a = Ok false → py_lt c a = Ok false.
Proof.
  unfold py_lt. intros [->| ->].
  - intros [x ->] [y ->] [z ->].
    intros [= Hzy%bool_decide_eq_false] [= Hyx%bool_decide_eq_false]. f_equal.
    apply bool_decide_eq_false, Qcle_not_lt.
    etrans; by apply Qcnot_lt_le.
  - intros [s ->] [s' ->] [s'' ->]. simpl. intros [= H1] [= H2]. f_equal.
    by eapply string_ltb_negtrans.
Qed.

Lemma py_lt_irrefl P a b :
  (P = numeric ∨ P = textual) → P a → P b →
  py_lt a b = Ok true → py_eq a b = false.
Proof.
  unfold py_lt, py_eq. intros [->| ->].
  - intros [x ->] [y ->] [= Hlt%bool_decide_eq_true].
    apply bool_decide_eq_false. intros ->. by apply (Qclt_not_eq _ _ Hlt).
  - intros [s ->] [s' ->]. simpl. intros [= Hlt].
    apply bool_decide_eq_false. intros ->.
    apply string_ltb_asym in Hlt as Hlt'. congruence.
Qed.

End order.

Section sorting.
Context (key : Row → DataValue) (P : DataValue → Prop).
Context (HP : P = numeric ∨ P = textual).
Implicit Types (l s : list Row) (x y : Row).

Lemma not_key_lt x y : P (key x) → P (key y) →
  ¬ key_lt key x y ↔ py_lt (key x) (key y) = Ok false.
Proof.
  intros Hx Hy. unfold key_lt.
  destruct (py_lt_total P _ _ HP Hx Hy) as [[] ->]; split; congruence.
Qed.

Lemma sort_insert_spec x s :
  P (key x) → Forall (λ r, P (key r)) s →
  ∃ s', sort_insert key x s = Ok s'
    ∧ s' ≡ₚ x :: s
    ∧ (sorted_by key false s → sorted_by key false s')
    ∧ ∀ v, filter (λ r, py_eq (key r) v = true) s' = filter (λ r, py_eq (key r) v = true) (x :: s).
Proof.
  intros Hx. induction 1 as [|y s Hy Hs IH]; simpl.
  - exists [x]. by repeat split.
  - destruct (py_lt_total P _ _ HP Hy Hx) as [c Hc]. rewrite Hc. simpl.
    destruct c.
    + destruct IH as (r & -> & Hperm & Hsorted & Hstable). simpl.
      exists (y :: r). split; [done|]. split; [|split].
      * rewrite Hperm. apply Permutation_swap.
      * intros [Hall Hsort]. split; [|by apply Hsorted].
        rewrite Hperm. constructor; [|done].
        apply not_key_lt; [done..|]. by eapply py_lt_asym.
      * intros v. rewrite (filter_cons _ y), Hstable, !filter_cons.
        pose proof (py_lt_irrefl P _ _ HP Hy Hx Hc) as Hne.
        repeat case_decide; try done.
        apply py_eq_false_key_of in Hne. destruct Hne.
        transitivity (key_of v); [|symmetry]; by apply py_eq_key_of.
    + exists (x :: y :: s). split; [done|]. split; [done|]. split; [|done].
      intros [Hall Hsort]. split; [|done].
      constructor; [by apply not_key_lt|].
      rewrite Forall_forall in Hall, Hs. apply Forall_forall. intros z Hz.
      pose proof (Hall z Hz) as Hzy. pose proof (Hs z Hz) as HPz. simpl in *.
      apply not_key_lt; [done..|].
      apply not_key_lt in Hzy; [|done..]. by eapply (py_lt_negtrans P _ (key y)).
Qed.

Lemma sort_stable_spec l :
  Forall (λ r, P (key r)) l →
  ∃ s, sort_stable key l = Ok s
    ∧ s ≡ₚ l
    ∧ sorted_by key false s
    ∧ ∀ v, filter (λ r, py_eq (key r) v = true) s = filter (λ r, py_eq (key r) v = true) l.
Proof.
  induction 1 as [|x l Hx Hl IH]; simpl.
  - exists []. by repeat split.
  - destruct IH as (s & -> & Hperm & Hsorted & Hstable). simpl.
    destruct (sort_insert_spec x s Hx) as (s' & -> & Hperm' & Hsorted' & Hstable').
    { by rewrite Hperm. }
    exists s'. split; [done|]. split; [by rewrite Hperm', Hperm|].
    split; [by apply Hsorted'|].
    intros v. by rewrite Hstable', !filter_cons, Hstable.
Qed.

Lemma sorted_by_desc_snoc l x :
  sorted_by key true (l ++ [x]) ↔
  sorted_by key true l ∧ Forall (λ y, ¬ key_lt key y x) l.
Proof.
  induction l as [|y l IH]; simpl.
  - split; [done|]. intros _. split; [constructor|done].
  - split.
    + intros [[Hall Hx%Forall_inv]%Forall_app [Hsorted Hall']%IH].
      repeat split; [done..|]. by constructor.
    + intros [[Hall Hsorted] Hyl]. apply Forall_cons_1 in Hyl as [Hy Hall'].
      split; [|by apply IH].
      apply Forall_app. split; [done|]. by constructor.
Qed.

Lemma sorted_by_reverse s :
  sorted_by key false s → sorted_by key true (reverse s).
Proof.
  induction s as [|x s IH]; simpl; [done|]. intros [Hall Hsorted].
  rewrite reverse_cons. apply sorted_by_desc_snoc.
  split; [by apply IH|]. by apply Forall_reverse.
Qed.

(** [list.sort] on keys that [<] orders returns the stable sorted
    permutation of the list. *)
Lemma list_sort_spec desc l :
  Forall (λ r, P (key r)) l →
  ∃ s, list_sort key desc l = Ok s
    ∧ s ≡ₚ l
    ∧ sorted_by key desc s
    ∧ ∀ v, filter (λ r, py_eq (key r) v = true) s = filter (λ r, py_eq (key r) v = true) l.
Proof.
  intros Hl. unfold list_sort. destruct desc.
  - destruct (sort_stable_spec (reverse l)) as (s & -> & Hperm & Hsorted & Hstable).
    { by apply Forall_reverse. }
    exists (reverse s). split; [done|]. split; [|split].
    + by rewrite reverse_Permutation, Hperm, reverse_Permutation.
    + by apply sorted_by_reverse.
    + intros v. by rewrite filter_reverse, Hstable, filter_reverse, reverse_involutive.
  - by apply sort_stable_spec.
Qed.

End sorting.

(** ** select *)

Section select.
Implicit Types (t : Table) (rs : list Row).

Lemma select_filter_total (f : Predicate) rs :
  Forall (λ r, ∃ b, f r = Ok b) rs →
  Table.select_filter f rs = Ok (filter (λ r, f r = Ok true) rs).
Proof.
  induction 1 as [|r rs [b Hf] _ IH]; simpl; [done|].
  rewrite Hf, IH, filter_cons, Hf. simpl.
  destruct b; by repeat case_decide.
Qed.

Lemma filter_where_none rs : filter (λ r, where_matches None r = Ok true) rs = rs.
Proof.
  induction rs as [|r rs IH]; [done|]. rewrite filter_cons_True by done.
  by rewrite IH.
Qed.

(** The filter stage. *)
Lemma select_where where_fn rs :
  Forall (λ r, ∃ b, where_matches where_fn r = Ok b) rs →
  match where_fn with
  | Some f => Table.select_filter f rs
  | None => Ok rs
  end = Ok (filter (λ r, where_matches where_fn r = Ok true) rs).
Proof.
  destruct where_fn as [f|]; intros Htotal.
  - by apply select_filter_total.
  - by rewrite filter_where_none.
Qed.

Lemma py_slice_to_nat {A} (l : list A) (n : nat) : py_slice_to l (Z.of_nat n) = take n l.
Proof.
  unfold py_slice_to. rewrite bool_decide_eq_true_2 by lia. by rewrite Nat2Z.id.
Qed.

(** The project stage keeps, of the requested columns, those the row has. *)
Lemma project_row_lookup (proj : list string) (r : Row) c :
  dict_lookup (Table.project_row proj r) c =
    if decide (c ∈ proj) then dict_lookup r c else None.
Proof.
  unfold Table.project_row.
  assert (∀ acc, dict_lookup
      (foldl (λ out c, if dict_mem r c then dict_set out c (dict_get r c) else out)
         acc proj) c =
      if decide (c ∈ proj ∧ is_Some (dict_lookup r c)) then dict_lookup r c
      else dict_lookup acc c) as Hgen.
  { induction proj as [|c0 proj IH]; intros acc; simpl.
    - done.
    - rewrite IH. unfold dict_mem.
      destruct (decide (c ∈ proj ∧ is_Some (dict_lookup r c))) as [[Hin Hs]|Hn].
      + rewrite decide_True; [done|]. split; [by right|done].
      + case_bool_decide as Hc0.
        * rewrite dict_lookup_set. destruct (decide (c0 = c)) as [->|Hne].
          -- rewrite decide_True by (split; [by left|done]).
             destruct Hc0 as [v Hv]. unfold dict_get. by rewrite Hv.
          -- rewrite decide_False; [done|].
             intros [[->|Hin]%elem_of_cons Hs]; [done|]. by apply Hn.
        * rewrite decide_False; [done|].
          intros [[->|Hin]%elem_of_cons Hs]; [done|]. by apply Hn. }
  rewrite Hgen. simpl.
  destruct (decide (c ∈ proj)) as [Hin|Hn].
  - destruct (dict_lookup r c) as [v|] eqn:Hv.
    + by rewrite decide_True.
    + rewrite decide_False; [done|]. by intros [_ [? ?]].
  - rewrite decide_False; [done|]. by intros [? _].
Qed.

End select.

(** C5. Select pipeline order: select filters the rows, projects the rows
    kept, sorts the projected rows stably by the order-by column, ascending
    or descending, and truncates the sorted list to its first N rows.  (The
    predicate is taken to raise on no row, and the sort keys to be all
    numbers or all strings.)  On five rows with ages 10 to 50, the filter
    age > 25, order by age descending and limit 2 give exactly the rows
    [{age: 50}] and [{age: 40}] of the projected column.  The sort reads the
    projected rows: ordering by a column that the projection dropped compares
    nulls and raises. *)
Theorem select_pipeline (t : Table) (proj : option (list string))
    (where_fn : option Predicate) (col : string) (desc : bool) (limit : option nat) :
  let filtered := filter (λ r, where_matches where_fn r = Ok true) (rows t) in
  let projected :=
    match proj with
    | None => filtered
    | Some p => if bool_decide (p = ["*"]) then filtered
                else Table.project_row p <$> filtered
    end in
  let key := λ r, dict_get r col in
  let truncate := λ l : list Row, match limit with Some n => take n l | None => l end in
  Forall (λ r, ∃ b, where_matches where_fn r = Ok b) (rows t) →
  (comparable_keys key projected →
   ∃ sorted,
     Table.select t proj where_fn (Some (col, desc)) (Z.of_nat <$> limit)
       = Ok (truncate sorted)
     ∧ sorted ≡ₚ projected
     ∧ sorted_by key desc sorted
     ∧ ∀ v, filter (λ r, py_eq (key r) v = true) sorted
            = filter (λ r, py_eq (key r) v = true) projected)
  ∧ Table.select t proj where_fn None (Z.of_nat <$> limit) = Ok (truncate projected)
  ∧ Table.select five_people (Some ["age"])
      (Some (λ r, py_gt (dict_get r "age") (VInt 25))) (Some ("age", true)) (Some 2%Z)
    = Ok [[("age", VInt 50)]; [("age", VInt 40)]]
  ∧ Table.select five_people (Some ["id"]) None (Some ("age", true)) None
    = Raise (TypeError NotSupportedBetween).
Proof.
  intros filtered projected key truncate Htotal.
  assert (∀ l, match Z.of_nat <$> limit with
               | Some n => py_slice_to l n
               | None => l
               end = truncate l) as Hlimit.
  { intros l. unfold truncate. destruct limit; simpl; [apply py_slice_to_nat|done]. }
  split; [|split; [|split]].
  - intros Hkeys. unfold Table.select. rewrite (select_where _ _ Htotal).
    cbn [mbind pyresult_bind]. fold filtered. fold projected.
    assert (∃ P, (P = numeric ∨ P = textual) ∧ Forall (λ r, P (key r)) projected)
      as (P & HP & Hall).
    { destruct Hkeys; [exists numeric|exists textual]; eauto. }
    destruct (list_sort_spec key P HP desc projected Hall)
      as (sorted & Hsort & Hperm & Hsorted & Hstable).
    exists sorted. fold key. rewrite Hsort. cbn [mbind pyresult_bind].
    by rewrite Hlimit.
  - unfold Table.select. rewrite (select_where _ _ Htotal).
    cbn [mbind pyresult_bind]. fold filtered. fold projected. by rewrite Hlimit.
  - vm_compute. reflexivity.
  - vm_compute. reflexivity.
Qed.

Lemma select_pipeline_witness :
  Table.select five_people None None None (Some 2%Z)
  = Ok [[("id", VInt 1); ("age", VInt 10)]; [("id", VInt 2); ("age", VInt 20)]].
Proof.
  refine (proj1 (proj2 (select_pipeline five_people None None "age" false (Some 2) _))).
  apply Forall_forall. intros r _. by exists true.
Defined.
